(** * postgres-mcp-server: query guard, schema normalizer and request handlers

    A shallow embedding of [src/utils/validation.py],
    [src/utils/tables_parser.py], [src/utils/db.py] and the three handlers of
    [src/main.py], followed by the properties of the specification that were
    checked against them. *)

From Stdlib Require Import String Ascii ZArith DecimalString.
From stdpp Require Import ssreflect base tactics decidable option numbers list.

#[local] Set Warnings "-rewrite-rw".

Local Open Scope N_scope.

(** ** Python values *)

(** A Python [str] is a sequence of Unicode code points. *)
Abbreviation pystr := (list N).

(** An ASCII literal of the source, as a [str]. *)
Definition str (s : string) : pystr :=
  N_of_ascii <$> list_ascii_of_string s.

(** The exceptions that the modelled code can meet.  Those raised by the
    interpreter are named by their class and origin; [DriverError] stands
    for any [Exception] raised by the database driver (connection refused,
    SQL error, cancelled statement), with its class name and text. *)
Inductive exn : Type :=
  | IndexError
  | ValueError_unpack (got : nat)
  | ValueError_int_digits
  | TypeError_json_key
  | TypeError_json_value
  | TypeError_not_a_mapping
  | TypeError_no_context_manager
  | PydanticUserError
  | DriverError (cls detail : pystr).

Definition exn_class (e : exn) : pystr :=
  match e with
  | IndexError => str "IndexError"
  | ValueError_unpack _ | ValueError_int_digits => str "ValueError"
  | TypeError_json_key | TypeError_json_value
  | TypeError_not_a_mapping | TypeError_no_context_manager => str "TypeError"
  | PydanticUserError => str "PydanticUserError"
  | DriverError cls _ => cls
  end.

(** The outcome of evaluating a Python expression or block: a value, or an
    exception on its way up. *)
Inductive result (A : Type) : Type :=
  | Ok (a : A)
  | Raise (e : exn).
Arguments Ok {A} a.
Arguments Raise {A} e.

Definition rbind {A B} (m : result A) (k : A -> result B) : result B :=
  match m with
  | Ok a => k a
  | Raise e => Raise e
  end.

(** [try: body  except Exception as e: handler e]. *)
Definition try_except {A} (body : result A) (handler : exn -> result A) : result A :=
  match body with
  | Ok a => Ok a
  | Raise e => handler e
  end.

#[global] Instance result_ret : MRet result := fun A a => Ok a.
#[global] Instance result_bind : MBind result := fun A B k m => rbind m k.

(** The values that reach the modelled code from the database driver:
    [None], integers, text, and [bytes] as an instance of a value that is
    hashable but has no JSON form. *)
Inductive pyval : Type :=
  | PNone
  | PInt (z : Z)
  | PStr (s : pystr)
  | PBytes (b : pystr).

#[global] Instance pyval_eq_dec : EqDecision pyval.
Proof. solve_decision. Defined.

(** [str(z)] for an [int]. *)
Definition int_str (z : Z) : pystr :=
  str (NilZero.string_of_int (Z.to_int z)).

(** The number of decimal digits of an [int], and the most that the
    interpreter turns into text ([sys.get_int_max_str_digits()], 4300 as
    it comes). *)
Definition int_digits (z : Z) : nat := length (int_str (Z.abs z)).

Definition int_max_str_digits : nat := 4300.

(** ** [dict]

    A Python [dict] keeps its keys in insertion order, and the order decides
    which entry survives when [json.loads] meets one key twice, so a [dict]
    is the list of its items in that order, each key once. *)

Module PyDict.

Section Ops.
Context {K V : Type} `{EqDecision K}.

(** [d.get(k)] *)
Fixpoint dict_get (k : K) (d : list (K * V)) : option V :=
  match d with
  | [] => None
  | (k', v') :: d' => if decide (k' = k) then Some v' else dict_get k d'
  end.

(** [d[k] = v]: a key already present keeps its place. *)
Fixpoint dict_set (k : K) (v : V) (d : list (K * V)) : list (K * V) :=
  match d with
  | [] => [(k, v)]
  | (k', v') :: d' =>
      if decide (k' = k) then (k', v) :: d' else (k', v') :: dict_set k v d'
  end.

(** [dict(pairs)] *)
Definition dict_of (pairs : list (K * V)) : list (K * V) :=
  foldl (fun d kv => dict_set kv.1 kv.2 d) [] pairs.

Definition keys (d : list (K * V)) : list K := fst <$> d.

End Ops.

(** [d[k]] on a [defaultdict] whose factory makes an empty [defaultdict]:
    a missing key is first stored with the fresh value. *)
Definition dd_getitem {K V : Type} `{EqDecision K}
    (k : K) (d : list (K * list V)) : list V * list (K * list V) :=
  match dict_get k d with
  | Some v => (v, d)
  | None => ([], dict_set k [] d)
  end.

End PyDict.

(** ** [str.strip], [str.split], [str.upper] *)

Module PyStr.

(** [str.isspace] on one code point: the white space of [strip()] and of
    [split()] without separator. *)
Definition isspace (c : N) : bool :=
  ((9 <=? c) && (c <=? 13)) || ((28 <=? c) && (c <=? 32))
  || (c =? 133) || (c =? 160) || (c =? 5760)
  || ((8192 <=? c) && (c <=? 8202))
  || (c =? 8232) || (c =? 8233) || (c =? 8239) || (c =? 8287) || (c =? 12288).

Fixpoint lstrip (s : pystr) : pystr :=
  match s with
  | [] => []
  | c :: s' => if isspace c then lstrip s' else s
  end.

Definition rstrip (s : pystr) : pystr := reverse (lstrip (reverse s)).

Definition strip (s : pystr) : pystr := rstrip (lstrip s).

(** [s.split()]: the maximal runs of non-space code points, in order.
    [word] holds the run being read, last code point first. *)
Fixpoint split_from (word : pystr) (s : pystr) : list pystr :=
  match s with
  | [] => if word is [] then [] else [reverse word]
  | c :: s' =>
      if isspace c
      then (if word is [] then split_from [] s' else reverse word :: split_from [] s')
      else split_from (c :: word) s'
  end.

Definition split (s : pystr) : list pystr := split_from [] s.

Section Upper.
(** The full upper-case mapping of the non-ASCII code points is a table of
    the interpreter (one code point may map to several). *)
Variable unicode_upper : N -> pystr.

Definition char_upper (c : N) : pystr :=
  if (97 <=? c) && (c <=? 122) then [c - 32]
  else if c <? 128 then [c]
  else unicode_upper c.

Definition upper (s : pystr) : pystr := s ≫= char_upper.
End Upper.

End PyStr.

(** ** [utils/validation.py] *)

Module Validation.
Import PyStr.

Definition ALLOWED_KEYWORDS : list pystr :=
  [str "SELECT"; str "SHOW"; str "DESCRIBE"; str "DESC"; str "EXPLAIN"].

(** [l[0]] *)
Definition getitem0 {A} (l : list A) : result A :=
  match l with
  | [] => Raise IndexError
  | x :: _ => Ok x
  end.

Section CheckQuery.
Variable unicode_upper : N -> pystr.

Definition check_query (query : pystr) : result bool :=
  if bool_decide (strip query = [])
  then Ok false
  else
    word ← getitem0 (split (strip query));
    let first_word := upper unicode_upper word in
    Ok (bool_decide (first_word ∈ ALLOWED_KEYWORDS)).
End CheckQuery.

End Validation.

(** ** [utils/tables_parser.py] *)

Module TablesParser.
Import PyDict.

(** The value stored under a column name. *)
Abbreviation descriptor := (list (pystr * pyval)).

(** [db_structure], the three-level [defaultdict], keyed by the row's own
    values. *)
Abbreviation columns_dd := (list (pyval * descriptor)).
Abbreviation tables_dd := (list (pyval * columns_dd)).
Abbreviation schemas_dd := (list (pyval * tables_dd)).

(** What [json.loads] returns: plain dicts keyed by text. *)
Abbreviation columns := (list (pystr * descriptor)).
Abbreviation tables := (list (pystr * columns)).
Abbreviation schema_tree := (list (pystr * tables)).

(** The target list [schema, table, column, dtype, nullable, char_len] of
    the [for] statement. *)
Definition unpack6 (row : list pyval)
    : result (pyval * pyval * pyval * pyval * pyval * pyval) :=
  match row with
  | [schema; table; column; dtype; nullable; char_len] =>
      Ok (schema, table, column, dtype, nullable, char_len)
  | _ => Raise (ValueError_unpack (length row))
  end.

Definition column_descriptor (dtype nullable char_len : pyval) : descriptor :=
  [(str "data_type", dtype);
   (str "is_nullable", nullable);
   (str "character_maximum_length", char_len)].

(** [db_structure[schema][table][column] = value]: the two reads create
    what is missing, and the three dicts are shared objects, so the store
    lands in [db_structure]. *)
Definition setitem3 {K V : Type} `{EqDecision K} (schema table column : K) (value : V)
    (db_structure : list (K * list (K * list (K * V))))
    : list (K * list (K * list (K * V))) :=
  let '(tbls, db1) := dd_getitem schema db_structure in
  let '(cols, tbls1) := dd_getitem table tbls in
  let cols1 := dict_set column value cols in
  dict_set schema (dict_set table cols1 tbls1) db1.

(** The [for] loop.  [db_structure] is updated in place, so it is returned
    on both exits, with what the rows before a failure have put in it. *)
Fixpoint fill (query_results : list (list pyval)) (db_structure : schemas_dd)
    : result unit * schemas_dd :=
  match query_results with
  | [] => (Ok tt, db_structure)
  | row :: rest =>
      match unpack6 row with
      | Raise e => (Raise e, db_structure)
      | Ok (schema, table, column, dtype, nullable, char_len) =>
          fill rest
            (setitem3 schema table column
               (column_descriptor dtype nullable char_len) db_structure)
      end
  end.

(** [json.loads(json.dumps(x))], piece by piece.

    Text is written with every code point above ASCII as an escape of four
    hexadecimal digits, two of them for a code point above U+FFFF; reading
    back joins an escape of a high surrogate (U+D800 to U+DBFF) with a
    following escape of a low one (U+DC00 to U+DFFF).  So text comes back as
    it was, but for a high and a low surrogate side by side, which come
    back as one code point. *)
Definition is_high_surrogate (c : N) : bool := (55296 <=? c) && (c <=? 56319).
Definition is_low_surrogate (c : N) : bool := (56320 <=? c) && (c <=? 57343).

Fixpoint json_str (s : pystr) : pystr :=
  match s with
  | [] => []
  | hi :: tail =>
      match tail with
      | [] => [hi]
      | lo :: rest =>
          if is_high_surrogate hi && is_low_surrogate lo
          then (65536 + (hi - 55296) * 1024 + (lo - 56320)) :: json_str rest
          else hi :: json_str tail
      end
  end.

(** An [int] of more digits than the interpreter turns into text is a
    [ValueError] of [json.dumps]. *)
Definition json_int (z : Z) : result Z :=
  if (int_digits z <=? int_max_str_digits)%nat then Ok z
  else Raise ValueError_int_digits.

(** A key is written as text ([None] as [null], an [int] in decimal), a
    key of another type is a [TypeError]; reading back, a key met again
    replaces the value. *)
Definition json_key (k : pyval) : result pystr :=
  match k with
  | PStr s => Ok (json_str s)
  | PInt z => z' ← json_int z; Ok (int_str z')
  | PNone => Ok (str "null")
  | PBytes _ => Raise TypeError_json_key
  end.

Definition json_value (v : pyval) : result pyval :=
  match v with
  | PNone => Ok PNone
  | PInt z => z' ← json_int z; Ok (PInt z')
  | PStr s => Ok (PStr (json_str s))
  | PBytes _ => Raise TypeError_json_value
  end.

Fixpoint json_items {K V W : Type} (fk : K -> result pystr) (fv : V -> result W)
    (items : list (K * V)) (acc : list (pystr * W)) : result (list (pystr * W)) :=
  match items with
  | [] => Ok acc
  | (k, v) :: rest =>
      k' ← fk k;
      v' ← fv v;
      json_items fk fv rest (dict_set k' v' acc)
  end.

Definition json_object {K V W : Type} (fk : K -> result pystr) (fv : V -> result W)
    (d : list (K * V)) : result (list (pystr * W)) :=
  json_items fk fv d [].

Definition json_roundtrip (db_structure : schemas_dd) : result schema_tree :=
  json_object json_key
    (json_object json_key
       (json_object json_key
          (json_object (fun k => Ok (json_str k)) json_value))) db_structure.

(** The body of the [try] block. *)
Definition parse_tables_try (query_results : list (list pyval)) : result schema_tree :=
  let '(r, db_structure) := fill query_results [] in
  _ ← r;
  json_roundtrip db_structure.

(** [parse_tables]: the handler logs the exception and the function ends
    without a [return], so the caller gets [None]. *)
Definition parse_tables (query_results : list (list pyval)) : result (option schema_tree) :=
  try_except
    (t ← parse_tables_try query_results; Ok (Some t))
    (fun e => Ok None).

End TablesParser.

(** ** [utils/db.py] and [main.py] *)

Module Main.
Import PyDict Validation TablesParser.

(** What the handlers do to the outside world. *)
Inductive event : Type :=
  | Connect
  | Execute (sql : pystr)
  | Close.

(** The database behind [psycopg]: whether [psycopg.connect] succeeds, and
    for each statement either the column names of [cur.description] with
    the rows, or the exception that [cur.execute] or a fetch raises. *)
Record DatabaseExecutor : Type := {
  db_connect : result unit;
  db_execute : pystr -> result (list pystr * list (list pyval));
}.

(** The request context of the framework. *)
Record Context : Type := {
  client_id : pyval;
  request_id : pyval;
}.

(** The objects found in a payload. *)
Inductive pyobj : Type :=
  | OVal (v : pyval)
  | OBool (b : bool)
  | ORow (row : option (list pyval))
  | OExc (e : exn)
  | OTables (t : tables).

Abbreviation payload := (list (pystr * pyobj)).

(** What a handler returns: the plain [dict] of the rejection.  A
    [pydantic.BaseModel] is never returned, see [BaseModel] below. *)
Inductive retval : Type :=
  | Dict (d : payload).

(** What the local variable [response] can hold when [**response] is
    evaluated. *)
Inductive pylocal : Type :=
  | LDict (d : payload)
  | LStr (s : pystr)
  | LNone.

(** [**x] in a call: only a mapping unpacks. *)
Definition kwargs (x : pylocal) : result payload :=
  match x with
  | LDict d => Ok d
  | LStr _ | LNone => Raise TypeError_not_a_mapping
  end.

(** [pydantic.BaseModel] called with [**x].  The keyword arguments are
    unpacked first; then the call itself fails: pydantic 2, the one that
    [pydantic_settings] and [fastmcp] work with, refuses to make an
    instance of [BaseModel] itself and raises [PydanticUserError]. *)
Definition BaseModel (x : pylocal) : result retval :=
  _ ← kwargs x;
  Raise PydanticUserError.

(** *** Statements with effects

    A block runs on the mutable locals [L] of its function and on the
    events so far; both survive an exception. *)
Section Blocks.
Context {L : Type}.

Definition M (A : Type) : Type := L * list event -> result A * (L * list event).

Definition ret {A} (a : A) : M A := fun st => (Ok a, st).

Definition bind {A B} (m : M A) (k : A -> M B) : M B :=
  fun st =>
    match m st with
    | (Ok a, st') => k a st'
    | (Raise e, st') => (Raise e, st')
    end.

Definition lift {A} (r : result A) : M A := fun st => (r, st).

Definition emit (ev : event) : M unit :=
  fun st => (Ok tt, (st.1, st.2 ++ [ev])).

Definition get_locals : M L := fun st => (Ok st.1, st).

Definition set_locals (l : L) : M unit := fun st => (Ok tt, (l, st.2)).

(** [try: body  except Exception as e: handler e] *)
Definition try_except_M {A} (body : M A) (handler : exn -> M A) : M A :=
  fun st =>
    match body st with
    | (Ok a, st') => (Ok a, st')
    | (Raise e, st') => handler e st'
    end.

End Blocks.

#[global] Instance M_ret {L} : MRet (@M L) := fun A a => ret a.
#[global] Instance M_bind {L} : MBind (@M L) := fun A B k m => bind m k.

Section Handlers.
Context {L : Type}.
Variable db : DatabaseExecutor.

(** [get_connection] of [utils/db.py]: a failure of [psycopg.connect] is
    logged and the function ends without a [return]. *)
Definition get_connection : M (L:=L) (option unit) :=
  try_except_M
    (_ ← emit Connect;
     db_con ← lift (db_connect db);
     ret (Some db_con))
    (fun e => ret None).

(** [with con: body].  [None] is no context manager; a connection is
    closed when the block is left, on either exit. *)
Definition with_connection {A} (con : option unit) (body : M (L:=L) A) : M A :=
  match con with
  | None => lift (Raise TypeError_no_context_manager)
  | Some _ =>
      fun st =>
        let '(r, st') := body st in
        (r, (st'.1, st'.2 ++ [Close]))
  end.

(** [cur.execute(sql)], with the description and rows it makes available. *)
Definition cur_execute (sql : pystr) : M (L:=L) (list pystr * list (list pyval)) :=
  _ ← emit (Execute sql);
  lift (db_execute db sql).

End Handlers.

(** [cur.fetchone()] *)
Definition fetchone (rows : list (list pyval)) : pyobj := ORow (head rows).

(** "❌ Connection failed" *)
Definition connection_failed : pystr := 10060%N :: str " Connection failed".

(** [err_response] of the three handlers. *)
Definition err_response (e : exn) : payload :=
  [(str "message", OVal (PStr connection_failed)); (str "error", OExc e)].

(** The [except] block of the three handlers: the model is built once
    for [log.debug] and once for [return]. *)
Definition report {L} (e : exn) : M (L:=L) retval :=
  let err := LDict (err_response e) in
  _ ← lift (BaseModel err);
  lift (BaseModel err).

Definition _query1 : pystr := str "SELECT version();".
Definition _query2 : pystr := str "SELECT current_database();".

(** [response[key] = value] on the local [response] of [database_status]. *)
Definition response_setitem (key : pystr) (value : pyobj) : M (L:=payload) unit :=
  response ← get_locals;
  set_locals (dict_set key value response).

Definition database_status (db : DatabaseExecutor) (ctx : Context) : M (L:=payload) retval :=
  _ ← set_locals [(str "client_id", OVal (client_id ctx));
                  (str "request_id", OVal (request_id ctx))];
  try_except_M
    (con ← get_connection db;
     with_connection con
       ('(_, rows2) ← cur_execute db _query2;
        _ ← response_setitem (str "pg_database_name") (fetchone rows2);
        '(_, rows1) ← cur_execute db _query1;
        _ ← response_setitem (str "pg_version") (fetchone rows1);
        response ← get_locals;
        _ ← lift (BaseModel (LDict response));
        lift (BaseModel (LDict response))))
    report.

Definition _query : pystr :=
  str "
        SELECT table_schema, table_name, column_name, data_type, is_nullable, character_maximum_length
        FROM information_schema.columns
        WHERE table_schema NOT IN ('pg_catalog', 'information_schema')
        ORDER BY table_schema, table_name, ordinal_position;
    ".

(** The value of [parse_tables] as the local [response]. *)
Definition tree_local (t : option schema_tree) : pylocal :=
  match t with
  | Some tree => LDict (prod_map id OTables <$> tree)
  | None => LNone
  end.

Definition get_schema_tables (db : DatabaseExecutor) (ctx : Context) : M (L:=unit) retval :=
  try_except_M
    (con ← get_connection db;
     with_connection con
       ('(_, query_results) ← cur_execute db _query;
        t ← lift (parse_tables query_results);
        let response := tree_local t in
        _ ← lift (BaseModel response);
        lift (BaseModel response)))
    report.

Definition guard_rejected : payload :=
  [(str "message", OVal (PStr (str "This query use non-safe first word")));
   (str "error", OBool true)].

Section ExecuteQuery.
Variable unicode_upper : N -> pystr.
(** [json.dumps(results, indent=2, default=str)]: the text of a list of
    rows, or the exception of a value that cannot be written. *)
Variable json_dumps : list (list (pystr * pyval)) -> result pystr.

(** [[dict(zip(columns, row)) for row in rows]] *)
Definition zip_rows (columns : list pystr) (rows : list (list pyval))
    : list (list (pystr * pyval)) :=
  (fun row => dict_of (zip columns row)) <$> rows.

Definition execute_query (db : DatabaseExecutor) (ctx : Context) (query : pystr)
    : M (L:=unit) retval :=
  safe ← lift (check_query unicode_upper query);
  if (safe : bool) then
    try_except_M
      (con ← get_connection db;
       with_connection con
         ('(columns, rows) ← cur_execute db query;
          let results := zip_rows columns rows in
          text ← lift (json_dumps results);
          let response := LStr text in
          _ ← lift (BaseModel response);
          lift (BaseModel response)))
      report
  else
    ret (Dict guard_rejected).

End ExecuteQuery.

End Main.

(** ** The words of the specification *)

Module Spec.
Import PyStr.

Definition spaces (s : pystr) : Prop := Forall (fun c => isspace c = true) s.

Definition starts_with_space (s : pystr) : Prop :=
  ∃ c s', s = c :: s' ∧ isspace c = true.

(** [t] is [s] without its leading and trailing white space. *)
Definition trimmed (s t : pystr) : Prop :=
  ∃ l r, s = l ++ t ++ r ∧ spaces l ∧ spaces r ∧
    (t = [] ∨ ∃ a b, head t = Some a ∧ last t = Some b ∧
                     isspace a = false ∧ isspace b = false).

(** [w] is the first white-space-delimited token of [s]. *)
Definition first_token (s w : pystr) : Prop :=
  ∃ l r, s = l ++ w ++ r ∧ spaces l ∧ w ≠ [] ∧
    Forall (fun c => isspace c = false) w ∧ (r = [] ∨ starts_with_space r).

(** *** The schema normalizer *)

Import PyDict TablesParser.

(** Text as the driver delivers it: Unicode scalar values, no surrogate
    code points. *)
Definition scalar_text (s : pystr) : bool :=
  forallb (fun c => negb (is_high_surrogate c || is_low_surrogate c)) s.

(** A value that comes back from JSON as it went in: [None], an [int]
    within the digits that the interpreter turns into text, text of
    scalar values. *)
Definition json_ok (v : pyval) : bool :=
  match v with
  | PNone => true
  | PInt z => (int_digits z <=? int_max_str_digits)%nat
  | PStr s => scalar_text s
  | PBytes _ => false
  end.

(** A well-formed row: six values, the schema, table and column names
    text, and all six values such as come back from JSON unchanged. *)
Definition wf_row (row : list pyval) : bool :=
  match row with
  | [PStr s; PStr t; PStr c; dtype; nullable; char_len] =>
      scalar_text s && scalar_text t && scalar_text c
      && json_ok dtype && json_ok nullable && json_ok char_len
  | _ => false
  end.

(** The entry of a tree under a schema, a table and a column name. *)
Definition lookup3 (schema table column : pystr) (tree : schema_tree)
    : option descriptor :=
  tbls ← dict_get schema tree;
  cols ← dict_get table tbls;
  dict_get column cols.

Definition field (d : descriptor) (name : pystr) : pyval :=
  default PNone (dict_get name d).

(** A tree flattened back to rows
    (schema, table, column, dtype, nullable, maxlen). *)
Definition flatten (tree : schema_tree) : list (list pyval) :=
  '(schema, tbls) ← tree;
  '(table, cols) ← tbls;
  '(column, d) ← cols;
  [[PStr schema; PStr table; PStr column;
    field d (str "data_type"); field d (str "is_nullable");
    field d (str "character_maximum_length")]].

(** A fully populated column descriptor: the three attributes and nothing
    else. *)
Definition full_descriptor (d : descriptor) : Prop :=
  ∃ dtype nullable char_len,
    d = [(str "data_type", dtype); (str "is_nullable", nullable);
         (str "character_maximum_length", char_len)].

(** No schema and no table of the tree maps to an empty mapping, and every
    leaf is a full descriptor. *)
Definition populated (tree : schema_tree) : Prop :=
  ∀ schema tbls, (schema, tbls) ∈ tree →
    tbls ≠ [] ∧
    ∀ table cols, (table, cols) ∈ tbls →
      cols ≠ [] ∧
      ∀ column d, (column, d) ∈ cols → full_descriptor d.

End Spec.

(** ** The normalizer as a fold

    What [parse_tables] computes on well-formed rows, written on the trees
    that it returns; the properties below are proved on this form. *)

Module Assembly.
Import PyDict TablesParser Spec.

(** One assignment of the loop: the three keys and the value. *)
Definition entry (K : Type) : Type := K * K * K * descriptor.

Definition assemble {K : Type} `{EqDecision K} (entries : list (entry K))
    (db : list (K * list (K * list (K * descriptor))))
    : list (K * list (K * list (K * descriptor))) :=
  foldl (fun db '(s, t, c, d) => setitem3 s t c d db) db entries.

(** The assignment that a well-formed row makes. *)
Definition entry_of (row : list pyval) : entry pystr :=
  match row with
  | [PStr s; PStr t; PStr c; dtype; nullable; char_len] =>
      (s, t, c, column_descriptor dtype nullable char_len)
  | _ => ([], [], [], [])
  end.

(** The assignments that rebuild a tree, in the order of its items. *)
Definition tree_entries {K : Type} (tree : list (K * list (K * list (K * descriptor))))
    : list (entry K) :=
  '(s, tbls) ← tree; '(t, cols) ← tbls; '(c, d) ← cols; [(s, t, c, d)].

(** A tree of [json.loads] seen as a [db_structure] with text keys. *)
Definition wrap_keys {V W : Type} (f : V -> W) (d : list (pystr * V))
    : list (pyval * W) :=
  prod_map PStr f <$> d.

Definition wrap (tree : schema_tree) : schemas_dd :=
  wrap_keys (wrap_keys (wrap_keys id)) tree.

(** The shape of every tree that the loop builds from well-formed rows. *)
Definition good_descriptor (d : descriptor) : Prop :=
  ∃ dtype nullable char_len,
    d = column_descriptor dtype nullable char_len ∧
    json_ok dtype = true ∧ json_ok nullable = true ∧ json_ok char_len = true.

Definition good_columns (cols : columns) : Prop :=
  cols ≠ [] ∧ NoDup (keys cols) ∧
  Forall (fun kv => scalar_text kv.1 = true ∧ good_descriptor kv.2) cols.

Definition good_tables (tbls : tables) : Prop :=
  tbls ≠ [] ∧ NoDup (keys tbls) ∧
  Forall (fun kv => scalar_text kv.1 = true ∧ good_columns kv.2) tbls.

Definition good (tree : schema_tree) : Prop :=
  NoDup (keys tree) ∧ Forall (fun kv => scalar_text kv.1 = true ∧ good_tables kv.2) tree.

(** The same without the demand to be non-empty, for the dicts that a read
    has just created. *)
Definition ok_columns (cols : columns) : Prop :=
  NoDup (keys cols) ∧
  Forall (fun kv => scalar_text kv.1 = true ∧ good_descriptor kv.2) cols.

Definition ok_tables (tbls : tables) : Prop :=
  NoDup (keys tbls) ∧
  Forall (fun kv => scalar_text kv.1 = true ∧ good_columns kv.2) tbls.

(** The keys of an assignment are text of scalar values and its value is a
    descriptor of the loop. *)
Definition good_entry (e : entry pystr) : Prop :=
  scalar_text e.1.1.1 = true ∧ scalar_text e.1.1.2 = true ∧ scalar_text e.1.2 = true ∧
  good_descriptor e.2.

End Assembly.

(** ** Inputs used as instances *)

Module Examples.

Definition row6 (schema table column dtype nullable : string) (char_len : pyval)
    : list pyval :=
  [PStr (str schema); PStr (str table); PStr (str column);
   PStr (str dtype); PStr (str nullable); char_len].

(** The two rows of the specification. *)
Definition users_rows : list (list pyval) :=
  [row6 "public" "users" "id" "integer" "NO" PNone;
   row6 "public" "users" "name" "varchar" "YES" (PInt 255)].

(** The column [public.users.id] described twice. *)
Definition duplicate_rows : list (list pyval) :=
  [row6 "public" "users" "id" "integer" "NO" PNone;
   row6 "public" "users" "name" "varchar" "YES" (PInt 255);
   row6 "public" "users" "id" "bigint" "YES" PNone].

(** A good row followed by a row of two values. *)
Definition short_rows : list (list pyval) :=
  [row6 "public" "users" "id" "integer" "NO" PNone;
   [PStr (str "public"); PStr (str "users")]].

(** A row of six values, one of them [bytes]. *)
Definition bytes_rows : list (list pyval) :=
  [row6 "public" "users" "id" "integer" "NO" (PBytes (str "x"))].

(** A database that answers every statement with one column [x] and one
    row [1]. *)
Definition stub_db : Main.DatabaseExecutor :=
  {| Main.db_connect := Ok tt;
     Main.db_execute := fun _ => Ok ([str "x"], [[PInt 1]]) |}.

Definition connection_refused : exn :=
  DriverError (str "OperationalError") (str "connection refused").

(** A database that cannot be reached. *)
Definition refused_db : Main.DatabaseExecutor :=
  {| Main.db_connect := Raise connection_refused;
     Main.db_execute := fun _ => Raise connection_refused |}.

Definition statement_failed : exn :=
  DriverError (str "QueryCanceled") (str "canceling statement due to statement timeout").

(** A database that answers [SELECT current_database();] and fails on every
    other statement. *)
Definition half_db : Main.DatabaseExecutor :=
  {| Main.db_connect := Ok tt;
     Main.db_execute := fun sql =>
       if bool_decide (sql = Main._query2)
       then Ok ([str "current_database"], [[PStr (str "postgres")]])
       else Raise statement_failed |}.

Definition ctx0 : Main.Context :=
  {| Main.client_id := PStr (str "client"); Main.request_id := PStr (str "1") |}.

(** Stand-ins for the two tables of the interpreter, for instances on ASCII
    text. *)
Definition ascii_only : N -> pystr := fun c => [c].
Definition no_text : list (list (pystr * pyval)) -> result pystr := fun _ => Ok [].

End Examples.

(** ** [utils/settings.py] and the connection string of [utils/db.py] *)

Module DbSettings.

(** The fields of [Settings]; [DB_PASSWORD] is a [SecretStr], kept here as
    the secret it wraps. *)
Record Settings : Type := {
  DB_NAME : pystr;
  DB_USER : pystr;
  DB_PASSWORD : pystr;
  DB_HOST : pystr;
  DB_PORT : Z;
}.

(** [Settings()] when neither the environment nor [.env] sets a field. *)
Definition default_settings : Settings :=
  {| DB_NAME := str "postgres";
     DB_USER := str "postgres";
     DB_PASSWORD := str "postgres";
     DB_HOST := str "localhost";
     DB_PORT := 5432 |}.

(** [str] of a [SecretStr], which is what an f-string puts in its place:
    ten asterisks, or nothing when the secret is empty. *)
Definition secret_str (secret : pystr) : pystr :=
  if secret is [] then [] else str "**********".

(** The argument of [psycopg.connect] in [get_connection]. *)
Definition conninfo (db_set : Settings) : pystr :=
  str "postgresql://" ++ DB_USER db_set ++ str ":" ++ secret_str (DB_PASSWORD db_set)
    ++ str "@" ++ DB_HOST db_set ++ str ":" ++ int_str (DB_PORT db_set)
    ++ str "/" ++ DB_NAME db_set.

End DbSettings.

(** ** [utils/logger.py] *)

Module Logger.

Inductive log_level : Type := NOTSET | DEBUG | INFO | WARNING | ERROR | CRITICAL.

(** The handlers that a logger can hold: the module's own
    [StreamHandler(sys.stdout)], made once when the module is loaded, and
    any other. *)
Inductive log_handler : Type :=
  | handler
  | other_handler (id : N).

#[global] Instance log_handler_eq_dec : EqDecision log_handler.
Proof. solve_decision. Defined.

(** The logger that [logging.getLogger(__name__)] returns, the same object
    on every call: its level and its handlers. *)
Record logger_state : Type := {
  level : log_level;
  handlers : list log_handler;
}.

Definition setLevel (l : log_level) (logger : logger_state) : logger_state :=
  {| level := l; handlers := handlers logger |}.

(** [Logger.addHandler] appends a handler that the logger does not hold
    yet. *)
Definition addHandler (h : log_handler) (logger : logger_state) : logger_state :=
  if decide (h ∈ handlers logger) then logger
  else {| level := level logger; handlers := handlers logger ++ [h] |}.

Definition get_logger (logger : logger_state) : logger_state :=
  addHandler handler (setLevel DEBUG logger).

End Logger.

(** ** Words for the further properties *)

Module Vocabulary.
Import TablesParser Spec.

(** [c.lower()] for an ASCII capital, the code point itself otherwise. *)
Definition ascii_lower (c : N) : N :=
  if (65 <=? c) && (c <=? 90) then c + 32 else c.

(** The elements of a list in the order of their first appearance. *)
Definition first_seen {A : Type} `{EqDecision A} (l : list A) : list A :=
  foldl (fun seen x => if decide (x ∈ seen) then seen else seen ++ [x]) [] l.

(** The first value of a row, the schema in a row of [parse_tables]. *)
Definition schema_of (row : list pyval) : pystr :=
  match row with
  | PStr s :: _ => s
  | _ => []
  end.

(** A value that [json.dumps] can write: [None], an [int] within the
    digits that the interpreter turns into text, any text. *)
Definition json_writable (v : pyval) : bool :=
  match v with
  | PNone => true
  | PInt z => (int_digits z <=? int_max_str_digits)%nat
  | PStr _ => true
  | PBytes _ => false
  end.

(** A [db_structure] that [json.dumps] can write. *)
Definition writable_columns (cols : columns_dd) : Prop :=
  Forall (fun cd => json_writable cd.1 = true ∧
                    Forall (fun kv => json_writable kv.2 = true) cd.2) cols.

Definition writable_tables (tbls : tables_dd) : Prop :=
  Forall (fun tc => json_writable tc.1 = true ∧ writable_columns tc.2) tbls.

Definition writable (db : schemas_dd) : Prop :=
  Forall (fun st => json_writable st.1 = true ∧ writable_tables st.2) db.

End Vocabulary.

(** * Properties *)

Import PyStr PyDict Validation TablesParser Main Spec Assembly Examples.
Import DbSettings Logger Vocabulary.

(** ** The query guard *)

Lemma lstrip_spaces_app l s : spaces l → lstrip (l ++ s) = lstrip s.
Proof.
  induction 1 as [|c l Hc _ IH]; simpl; [done|]. by rewrite Hc.
Qed.

Lemma lstrip_spaces s : spaces s → lstrip s = [].
Proof.
  intros H. rewrite <- (app_nil_r s). by rewrite lstrip_spaces_app.
Qed.

Lemma lstrip_nonspace c s : isspace c = false → lstrip (c :: s) = c :: s.
Proof. intros H. simpl. by rewrite H. Qed.

(** [strip] is determined by the words of the specification. *)
Lemma trimmed_unique s t : trimmed s t → strip s = t.
Proof.
  intros (l & r & -> & Hl & Hr & Ht). rewrite /strip /rstrip.
  rewrite lstrip_spaces_app //.
  destruct Ht as [->|(a & b & Ha & Hb & Hsa & Hsb)].
  - by rewrite /= (lstrip_spaces r).
  - destruct t as [|a' t]; simplify_eq/=.
    rewrite Hsa. rewrite app_comm_cons reverse_app lstrip_spaces_app; last by apply Forall_reverse.
    apply last_Some in Hb as [t' Ht']. rewrite Ht' reverse_snoc /= Hsb.
    by rewrite -reverse_snoc reverse_involutive.
Qed.

(** [lstrip] drops a run of white space and nothing else. *)
Lemma lstrip_split s :
  ∃ l, s = l ++ lstrip s ∧ spaces l ∧
       (lstrip s = [] ∨ ∃ a, head (lstrip s) = Some a ∧ isspace a = false).
Proof.
  induction s as [|c s (l & Hs & Hl & Ht)]; simpl.
  - exists []. split_and!; [done|constructor|by left].
  - destruct (isspace c) eqn:Hc.
    + exists (c :: l). split_and!; [by rewrite /= -Hs|by constructor|done].
    + exists []. split_and!; [done|constructor|right; eauto].
Qed.

Lemma trimmed_strip s : trimmed s (strip s).
Proof.
  rewrite /strip /rstrip.
  destruct (lstrip_split s) as (l & Hs & Hl & Hhd).
  destruct (lstrip_split (reverse (lstrip s))) as (r & Hr & Hrs & Ht).
  set (u := lstrip (reverse (lstrip s))) in *.
  assert (Hu : lstrip s = reverse u ++ reverse r).
  { by rewrite -reverse_app -Hr reverse_involutive. }
  exists l, (reverse r). split_and!.
  - by rewrite -Hu.
  - done.
  - by apply Forall_reverse.
  - destruct Ht as [Hnil|(b & Hb & Hsb)]; [left; by rewrite Hnil|right].
    destruct Hhd as [E|(a & Ha & Hsa)].
    { rewrite E in Hu. symmetry in Hu. apply app_eq_nil in Hu as [Hu _].
      apply (f_equal reverse) in Hu. rewrite reverse_involutive in Hu.
      by rewrite Hu in Hb. }
    exists a, b. split_and!; [|by rewrite last_reverse|done..].
    rewrite Hu in Ha. rewrite head_app in Ha.
    destruct (reverse u) eqn:E; [|done].
    apply (f_equal reverse) in E. rewrite reverse_involutive in E.
    by rewrite E in Hb.
Qed.

Lemma split_from_spaces l s : spaces l → split_from [] (l ++ s) = split_from [] s.
Proof.
  induction 1 as [|c l Hc _ IH]; simpl; [done|]. by rewrite Hc.
Qed.

Lemma split_from_word w acc r :
  Forall (fun c => isspace c = false) w →
  split_from acc (w ++ r) = split_from (reverse w ++ acc) r.
Proof.
  intros Hw. revert acc. induction Hw as [|c w Hc _ IH]; intros acc; simpl; [done|].
  by rewrite Hc IH reverse_cons -assoc.
Qed.

Lemma split_from_end acc r :
  acc ≠ [] → r = [] ∨ starts_with_space r →
  ∃ rest, split_from acc r = reverse acc :: rest.
Proof.
  intros Hacc [->|(c & r' & -> & Hc)]; simpl.
  - destruct acc; [done|eauto].
  - rewrite Hc. destruct acc; [done|eauto].
Qed.

(** [split] puts the first token of the specification in front. *)
Lemma split_first_token s w : first_token s w → ∃ rest, split s = w :: rest.
Proof.
  intros (l & r & -> & Hl & Hne & Hw & Hr).
  rewrite /split split_from_spaces // split_from_word // app_nil_r.
  destruct (split_from_end (reverse w) r) as [rest Hrest]; [|done|].
  - intros E. apply Hne. by rewrite -(reverse_involutive w) E.
  - exists rest. by rewrite Hrest reverse_involutive.
Qed.

Lemma span_nonspace s :
  ∃ w r, s = w ++ r ∧ Forall (fun c => isspace c = false) w ∧
         (r = [] ∨ starts_with_space r).
Proof.
  induction s as [|c s (w & r & -> & Hw & Hr)].
  - exists [], []. split_and!; [done|constructor|by left].
  - destruct (isspace c) eqn:Hc.
    + exists [], (c :: w ++ r). split_and!; [done|constructor|right; by exists c, (w ++ r)].
    + exists (c :: w), r. split_and!; [done|by constructor|done].
Qed.

(** A text that starts with something else than white space has a first
    token. *)
Lemma first_token_exists t a :
  head t = Some a → isspace a = false → ∃ w, first_token t w.
Proof.
  intros Ha Hsa. destruct (span_nonspace t) as (w & r & -> & Hw & Hr).
  exists w, [], r. split_and!; [done|constructor| |done..].
  intros ->. destruct Hr as [->|(c & r' & -> & Hc)]; simplify_eq/=. congruence.
Qed.

Lemma check_query_strip_nonempty u s :
  strip s ≠ [] →
  ∃ w, first_token (strip s) w ∧
       check_query u s = Ok (bool_decide (upper u w ∈ ALLOWED_KEYWORDS)).
Proof.
  intros Hne. destruct (trimmed_strip s) as (_ & _ & _ & _ & _ & [E|(a & _ & Ha & _ & Hsa & _)]); [done|].
  destruct (first_token_exists _ _ Ha Hsa) as [w Hw].
  exists w. split; [done|].
  destruct (split_first_token _ _ Hw) as [rest Hrest].
  rewrite /check_query bool_decide_eq_false_2 // Hrest //.
Qed.

Lemma first_token_unique s w1 w2 : first_token s w1 → first_token s w2 → w1 = w2.
Proof.
  intros [r1 H1]%split_first_token [r2 H2]%split_first_token. congruence.
Qed.

Lemma check_query_returns u q : check_query u q = Ok true ∨ check_query u q = Ok false.
Proof.
  destruct (decide (strip q = [])) as [E|Hne].
  - right. by rewrite /check_query bool_decide_eq_true_2.
  - destruct (check_query_strip_nonempty u q Hne) as (w & _ & ->).
    destruct (bool_decide _); eauto.
Qed.

Lemma check_query_spaces u q : spaces q → check_query u q = Ok false.
Proof.
  intros Hs. rewrite /check_query bool_decide_eq_true_2 //.
  by rewrite /strip /rstrip (lstrip_spaces q).
Qed.

(** C1.  [check_query] always returns; it returns [True] exactly when the
    text, trimmed of white space, is not empty and its first
    white-space-delimited token, put in upper case, is one of SELECT, SHOW,
    DESCRIBE, DESC, EXPLAIN; on an empty or all-white-space text it returns
    [False]. *)
Theorem check_query_first_token (u : N -> pystr) (s : pystr) :
  (check_query u s = Ok true ↔
     ∃ t w, trimmed s t ∧ t ≠ [] ∧ first_token t w ∧
            upper u w ∈ [str "SELECT"; str "SHOW"; str "DESCRIBE"; str "DESC"; str "EXPLAIN"])
  ∧ (check_query u s = Ok true ∨ check_query u s = Ok false)
  ∧ (spaces s → check_query u s = Ok false).
Proof.
  split_and!.
  - split.
    + intros H. destruct (decide (strip s = [])) as [E|Hne].
      { by rewrite /check_query E in H. }
      destruct (check_query_strip_nonempty u s Hne) as (w & Hw & Hq).
      exists (strip s), w. split_and!; [apply trimmed_strip|done..|].
      rewrite Hq in H. injection H as H. by apply bool_decide_eq_true in H.
    + intros (t & w & Ht%trimmed_unique & Hne & Hw & Hin). subst t.
      destruct (check_query_strip_nonempty u s Hne) as (w' & Hw' & ->).
      rewrite (first_token_unique _ _ _ Hw' Hw). by rewrite bool_decide_eq_true_2.
  - apply check_query_returns.
  - apply check_query_spaces.
Qed.

(** ** Dictionaries *)

Section dict_facts.
Context {K V : Type} `{EqDecision K}.
Implicit Types (k : K) (v : V) (d : list (K * V)).

Lemma dict_get_None k d : dict_get k d = None ↔ k ∉ keys d.
Proof.
  induction d as [|[k' v'] d IH]; simpl.
  - split; [intros _; apply not_elem_of_nil|done].
  - rewrite not_elem_of_cons. case_decide; subst.
    + split; [done|]. intros [Hk _]. by destruct Hk.
    + rewrite IH. split; [by intros ?; split|by intros [_ ?]].
Qed.

Lemma dict_get_Some k v d : dict_get k d = Some v → (k, v) ∈ d.
Proof.
  induction d as [|[k' v'] d IH]; simpl; [done|].
  case_decide; subst.
  - intros [= ->]. left.
  - intros ?. right. by apply IH.
Qed.

Lemma dict_get_elem_of k v d : NoDup (keys d) → (k, v) ∈ d → dict_get k d = Some v.
Proof.
  induction d as [|[k' v'] d IH]; simpl.
  - by intros _ ?%elem_of_nil.
  - intros [Hk Hd]%NoDup_cons [E|Hin]%elem_of_cons.
    + simplify_eq. by rewrite decide_True.
    + rewrite decide_False; [by apply IH|].
      intros ->. apply Hk. apply list_elem_of_fmap. by exists (k, v).
Qed.

Lemma dict_get_set_eq k v d : dict_get k (dict_set k v d) = Some v.
Proof.
  induction d as [|[k' v'] d IH]; simpl.
  - by rewrite decide_True.
  - case_decide; simpl; subst.
    + by rewrite decide_True.
    + by rewrite decide_False.
Qed.

Lemma dict_get_set_ne k k' v d : k ≠ k' → dict_get k' (dict_set k v d) = dict_get k' d.
Proof.
  intros Hne. induction d as [|[k0 v0] d IH]; simpl.
  - by rewrite decide_False.
  - case_decide; simpl; subst.
    + by rewrite !decide_False.
    + by rewrite IH.
Qed.

Lemma dict_set_notin k v d : k ∉ keys d → dict_set k v d = d ++ [(k, v)].
Proof.
  induction d as [|[k' v'] d IH]; simpl; [done|].
  intros [Hne Hd]%not_elem_of_cons. rewrite decide_False; [|done]. by rewrite IH.
Qed.

Lemma dict_get_app_last k v d : k ∉ keys d → dict_get k (d ++ [(k, v)]) = Some v.
Proof. intros Hk. by rewrite -dict_set_notin // dict_get_set_eq. Qed.

Lemma dict_set_set k v v' d : dict_set k v (dict_set k v' d) = dict_set k v d.
Proof.
  induction d as [|[k0 v0] d IH]; simpl.
  - by rewrite decide_True.
  - case_decide; simpl; subst.
    + by rewrite decide_True.
    + by rewrite decide_False // IH.
Qed.

Lemma dict_set_app_last k v v' d :
  k ∉ keys d → dict_set k v (d ++ [(k, v')]) = d ++ [(k, v)].
Proof.
  intros Hk. by rewrite -(dict_set_notin k v') // dict_set_set dict_set_notin.
Qed.

Lemma keys_dict_set k v d :
  keys (dict_set k v d) = if decide (k ∈ keys d) then keys d else keys d ++ [k].
Proof.
  induction d as [|[k' v'] d IH].
  - destruct (decide (k ∈ keys [])) as [Hin|_]; [by apply elem_of_nil in Hin|done].
  - change (keys (if decide (k' = k) then (k', v) :: d else (k', v') :: dict_set k v d) =
            if decide (k ∈ k' :: keys d) then k' :: keys d else (k' :: keys d) ++ [k]).
    destruct (decide (k' = k)) as [->|Hne].
    + rewrite decide_True //. left.
    + change (k' :: keys (dict_set k v d) =
              if decide (k ∈ k' :: keys d) then k' :: keys d else (k' :: keys d) ++ [k]).
      rewrite IH. destruct (decide (k ∈ keys d)) as [Hin|Hin].
      * rewrite decide_True //. by right.
      * rewrite decide_False //. rewrite not_elem_of_cons. naive_solver.
Qed.

Lemma NoDup_keys_dict_set k v d : NoDup (keys d) → NoDup (keys (dict_set k v d)).
Proof.
  intros Hd. rewrite keys_dict_set. case_decide; [done|].
  apply NoDup_app. split_and!; [done| |apply NoDup_singleton].
  intros x Hx [->|[]%elem_of_nil]%elem_of_cons. done.
Qed.

Lemma Forall_dict_set (P : K * V → Prop) k v d :
  Forall P d → P (k, v) → Forall P (dict_set k v d).
Proof.
  intros Hd Hkv. induction Hd as [|[k' v'] d Hx Hd IH]; simpl.
  - by constructor.
  - case_decide; subst; by constructor.
Qed.

Lemma dict_set_nonempty k v d : dict_set k v d ≠ [].
Proof. destruct d as [|[k' v'] d]; simpl; [done|]. by case_decide. Qed.

End dict_facts.

(** ** The nested assignment *)

Section setitem3_facts.
Context {K : Type} `{EqDecision K}.
Implicit Types (s t c : K) (v : descriptor).
Implicit Types (cols : list (K * descriptor)).
Implicit Types (tbls : list (K * list (K * descriptor))).
Implicit Types (db : list (K * list (K * list (K * descriptor)))).

(** The entries that the two reads create are overwritten by the store. *)
Lemma setitem3_unfold s t c v db :
  setitem3 s t c v db =
    let tbls := default [] (dict_get s db) in
    let cols := default [] (dict_get t tbls) in
    dict_set s (dict_set t (dict_set c v cols) tbls) db.
Proof.
  rewrite /setitem3 /dd_getitem.
  destruct (dict_get s db) as [tbls|]; simpl.
  - destruct (dict_get t tbls) as [cols|]; simpl; [done|]. by rewrite dict_set_set.
  - rewrite decide_True // dict_set_set //.
Qed.

Lemma setitem3_new_schema s t c v db :
  s ∉ keys db → setitem3 s t c v db = db ++ [(s, [(t, [(c, v)])])].
Proof.
  intros Hs. rewrite setitem3_unfold.
  by rewrite (proj2 (dict_get_None s db) Hs) /= dict_set_notin.
Qed.

Lemma setitem3_new_table s t c v db tbls :
  s ∉ keys db → t ∉ keys tbls →
  setitem3 s t c v (db ++ [(s, tbls)]) = db ++ [(s, tbls ++ [(t, [(c, v)])])].
Proof.
  intros Hs Ht. rewrite setitem3_unfold dict_get_app_last //=.
  by rewrite (proj2 (dict_get_None t tbls) Ht) /= (dict_set_notin t) // dict_set_app_last.
Qed.

Lemma setitem3_new_column s t c v db tbls cols :
  s ∉ keys db → t ∉ keys tbls → c ∉ keys cols →
  setitem3 s t c v (db ++ [(s, tbls ++ [(t, cols)])]) =
    db ++ [(s, tbls ++ [(t, cols ++ [(c, v)])])].
Proof.
  intros Hs Ht Hc. rewrite setitem3_unfold dict_get_app_last //=.
  by rewrite dict_get_app_last //= (dict_set_notin c) // !dict_set_app_last.
Qed.

Lemma assemble_app (es1 es2 : list (entry K)) db :
  assemble (es1 ++ es2) db = assemble es2 (assemble es1 db).
Proof. apply foldl_app. Qed.

(** Rebuilding the columns of the last table. *)
Lemma assemble_columns s t cols2 : ∀ db tbls cols1,
  s ∉ keys db → t ∉ keys tbls → NoDup (keys (cols1 ++ cols2)) →
  assemble (cols2 ≫= (fun '(c, d) => [(s, t, c, d)])) (db ++ [(s, tbls ++ [(t, cols1)])]) =
    db ++ [(s, tbls ++ [(t, cols1 ++ cols2)])].
Proof.
  induction cols2 as [|[c d] cols2 IH]; intros db tbls cols1 Hs Ht Hnd.
  - by rewrite app_nil_r.
  - assert (Hc : c ∉ keys cols1).
    { rewrite /keys fmap_app in Hnd. apply NoDup_app in Hnd as (_ & Hd & _).
      intros Hc. apply (Hd c Hc). left. }
    rewrite /= setitem3_new_column // IH //; [|by rewrite -assoc]. by rewrite -assoc.
Qed.

(** Rebuilding the tables of the last schema. *)
Lemma assemble_tables s tbls2 : ∀ db tbls1,
  s ∉ keys db → NoDup (keys (tbls1 ++ tbls2)) →
  Forall (fun kv => kv.2 ≠ [] ∧ NoDup (keys kv.2)) tbls2 →
  assemble (tbls2 ≫= (fun '(t, cols) => cols ≫= (fun '(c, d) => [(s, t, c, d)])))
      (db ++ [(s, tbls1)]) =
    db ++ [(s, tbls1 ++ tbls2)].
Proof.
  induction tbls2 as [|[t cols] tbls2 IH]; intros db tbls1 Hs Hnd Hall.
  - by rewrite app_nil_r.
  - apply Forall_cons in Hall as [[Hne Hcols] Hall]. simpl in Hne, Hcols.
    destruct cols as [|[c d] cols]; [done|].
    assert (Ht : t ∉ keys tbls1).
    { rewrite /keys fmap_app in Hnd. apply NoDup_app in Hnd as (_ & Hd & _).
      intros Hin. apply (Hd t Hin). left. }
    rewrite bind_cons assemble_app /= setitem3_new_table //.
    rewrite (assemble_columns s t cols db tbls1 [(c, d)]) //.
    rewrite IH //; [|by rewrite -assoc]. by rewrite -assoc.
Qed.

(** Rebuilding a tree from its own entries gives the tree back. *)
Lemma assemble_tree tree2 : ∀ tree1 : list (K * list (K * list (K * descriptor))),
  NoDup (keys (tree1 ++ tree2)) →
  Forall (fun kv => kv.2 ≠ [] ∧ NoDup (keys kv.2) ∧
                    Forall (fun kv' => kv'.2 ≠ [] ∧ NoDup (keys kv'.2)) kv.2) tree2 →
  assemble (tree_entries tree2) tree1 = tree1 ++ tree2.
Proof.
  induction tree2 as [|[s tbls] tree2 IH]; intros tree1 Hnd Hall.
  - by rewrite app_nil_r.
  - apply Forall_cons in Hall as [(Hne & Htbls & Hin) Hall]. simpl in Hne, Htbls, Hin.
    destruct tbls as [|[t cols] tbls]; [done|].
    apply Forall_cons in Hin as [[Hcne Hcols] Hin]. simpl in Hcne, Hcols.
    destruct cols as [|[c d] cols]; [done|].
    assert (Hs : s ∉ keys tree1).
    { rewrite /keys fmap_app in Hnd. apply NoDup_app in Hnd as (_ & Hd & _).
      intros Hs. apply (Hd s Hs). left. }
    rewrite /tree_entries bind_cons assemble_app bind_cons assemble_app.
    rewrite /= setitem3_new_schema //.
    pose proof (assemble_columns s t cols tree1 [] [(c, d)] Hs
                  (not_elem_of_nil _) Hcols) as HA.
    simpl in HA. rewrite HA.
    rewrite (assemble_tables s tbls tree1 [(t, (c, d) :: cols)]) //.
    rewrite -/(tree_entries tree2) IH //; [|by rewrite -assoc]. by rewrite -assoc.
Qed.

End setitem3_facts.

(** ** Trees with text keys *)

Lemma ok_columns_get (t : pystr) (tbls : tables) :
  ok_tables tbls → ok_columns (default [] (dict_get t tbls)).
Proof.
  intros [_ Hall]. destruct (dict_get t tbls) as [cols|] eqn:E; simpl.
  - apply dict_get_Some in E. rewrite Forall_forall in Hall.
    by destruct (Hall _ E) as (_ & _ & ? & ?).
  - split; constructor.
Qed.

Lemma ok_tables_get (s : pystr) (tree : schema_tree) :
  good tree → ok_tables (default [] (dict_get s tree)).
Proof.
  intros [_ Hall]. destruct (dict_get s tree) as [tbls|] eqn:E; simpl.
  - apply dict_get_Some in E. rewrite Forall_forall in Hall.
    by destruct (Hall _ E) as (_ & _ & ? & ?).
  - split; constructor.
Qed.

(** The loop keeps every dict non-empty, its keys distinct and its leaves
    full. *)
Lemma good_setitem3 (s t c : pystr) (d : descriptor) (tree : schema_tree) :
  good tree → good_entry (s, t, c, d) → good (setitem3 s t c d tree).
Proof.
  intros Hgood (Hs & Ht & Hc & Hd). simpl in Hs, Ht, Hc, Hd. rewrite setitem3_unfold /=.
  pose proof (ok_tables_get s tree Hgood) as Htbls.
  pose proof (ok_columns_get t _ Htbls) as [Hcnd Hcall].
  destruct Htbls as [Htnd Htall]. destruct Hgood as [Hnd Hall].
  split; [by apply NoDup_keys_dict_set|].
  apply Forall_dict_set; [done|]. simpl.
  split; [done|]. split; [apply dict_set_nonempty|]. split; [by apply NoDup_keys_dict_set|].
  apply Forall_dict_set; [done|]. simpl.
  split; [done|]. split; [apply dict_set_nonempty|]. split; [by apply NoDup_keys_dict_set|].
  by apply Forall_dict_set.
Qed.

Lemma good_nil : good [].
Proof. split; constructor. Qed.

Lemma good_assemble (es : list (entry pystr)) : ∀ tree,
  good tree → Forall good_entry es → good (assemble es tree).
Proof.
  induction es as [|[[[s t] c] d] es IH]; intros tree Hgood Hes; [done|].
  apply Forall_cons in Hes as [Hd Hes]. simpl. apply IH; [|done].
  by apply good_setitem3.
Qed.

Lemma lookup3_setitem3_eq (s t c : pystr) d (tree : schema_tree) :
  lookup3 s t c (setitem3 s t c d tree) = Some d.
Proof.
  rewrite setitem3_unfold /lookup3 /=.
  by rewrite dict_get_set_eq /= dict_get_set_eq /= dict_get_set_eq.
Qed.

Lemma lookup3_setitem3_ne (s t c s' t' c' : pystr) d (tree : schema_tree) :
  (s, t, c) ≠ (s', t', c') →
  lookup3 s' t' c' (setitem3 s t c d tree) = lookup3 s' t' c' tree.
Proof.
  intros Hne. rewrite setitem3_unfold /lookup3 /=.
  destruct (decide (s = s')) as [<-|Hs]; [|by rewrite dict_get_set_ne].
  rewrite dict_get_set_eq /=.
  destruct (decide (t = t')) as [<-|Ht].
  - rewrite dict_get_set_eq /= dict_get_set_ne; [|congruence].
    destruct (dict_get s tree) as [tbls|]; simpl; [|done].
    by destruct (dict_get t tbls).
  - rewrite dict_get_set_ne //. by destruct (dict_get s tree).
Qed.

Lemma lookup3_assemble_other (k : pystr * pystr * pystr) (es : list (entry pystr)) :
  ∀ tree, Forall (fun e => e.1 ≠ k) es →
  lookup3 k.1.1 k.1.2 k.2 (assemble es tree) = lookup3 k.1.1 k.1.2 k.2 tree.
Proof.
  induction es as [|[[[s t] c] d] es IH]; intros tree Hes; [done|].
  apply Forall_cons in Hes as [Hk Hes]. rewrite /= IH //.
  destruct k as [[s' t'] c']. by apply lookup3_setitem3_ne.
Qed.

(** The entry under a key is the value of the last assignment to it. *)
Lemma lookup3_assemble_last (s t c : pystr) d (pre post : list (entry pystr)) tree :
  Forall (fun e => e.1 ≠ (s, t, c)) post →
  lookup3 s t c (assemble (pre ++ (s, t, c, d) :: post) tree) = Some d.
Proof.
  intros Hpost. rewrite assemble_app /=.
  rewrite (lookup3_assemble_other (s, t, c)) //. apply lookup3_setitem3_eq.
Qed.

(** ** From the loop to the fold *)

Lemma dict_get_wrap_keys {V W : Type} (f : V → W) (k : pystr) (d : list (pystr * V)) :
  dict_get (PStr k) (wrap_keys f d) = f <$> dict_get k d.
Proof.
  induction d as [|[k' v'] d IH]; simpl; [done|].
  destruct (decide (k' = k)) as [->|Hne].
  - by rewrite decide_True.
  - rewrite decide_False; [done|by intros [= ?]].
Qed.

Lemma dict_set_wrap_keys {V W : Type} (f : V → W) (k : pystr) v (d : list (pystr * V)) :
  dict_set (PStr k) (f v) (wrap_keys f d) = wrap_keys f (dict_set k v d).
Proof.
  induction d as [|[k' v'] d IH]; simpl; [done|].
  destruct (decide (k' = k)) as [->|Hne].
  - by rewrite decide_True.
  - rewrite decide_False; [|by intros [= ?]]. simpl. by rewrite IH.
Qed.

Lemma setitem3_wrap (s t c : pystr) d (tree : schema_tree) :
  setitem3 (PStr s) (PStr t) (PStr c) d (wrap tree) = wrap (setitem3 s t c d tree).
Proof.
  rewrite !setitem3_unfold /wrap /=.
  rewrite -dict_set_wrap_keys. f_equal.
  rewrite dict_get_wrap_keys.
  destruct (dict_get s tree) as [tbls|]; simpl.
  - rewrite -dict_set_wrap_keys. f_equal.
    rewrite dict_get_wrap_keys.
    destruct (dict_get t tbls) as [cols|]; simpl.
    + by rewrite -(dict_set_wrap_keys id).
    + done.
  - done.
Qed.

(** On well-formed rows the loop never fails and makes the assignments of
    [entry_of], one per row. *)
Lemma fill_wf (rows : list (list pyval)) : ∀ tree,
  Forall (fun row => wf_row row = true) rows →
  fill rows (wrap tree) = (Ok tt, wrap (assemble (entry_of <$> rows) tree)).
Proof.
  induction rows as [|row rows IH]; intros tree Hwf; [done|].
  apply Forall_cons in Hwf as [Hrow Hwf].
  destruct row as [|[| |s|] [|[| |t|] [|[| |c|] [|dtype [|nullable [|char_len [|x row]]]]]]];
    try done.
  by rewrite /= setitem3_wrap IH.
Qed.

Lemma good_entry_of row : wf_row row = true → good_entry (entry_of row).
Proof.
  destruct row as [|[| |s|] [|[| |t|] [|[| |c|] [|dtype [|nullable [|char_len [|x row]]]]]]];
    try done.
  rewrite /wf_row !andb_true_iff. intros [[[[[? ?] ?] ?] ?] ?].
  split_and!; [done..|]. by exists dtype, nullable, char_len.
Qed.

(** ** The JSON round trip *)

(** Text of scalar values comes back from JSON as it went in. *)
Lemma json_str_scalar (s : pystr) : scalar_text s = true → json_str s = s.
Proof.
  induction s as [|hi tail IH]; [done|].
  intros [Hhi Htail]%andb_true_iff. specialize (IH Htail).
  apply negb_true_iff, orb_false_iff in Hhi as [Hhi _].
  destruct tail as [|lo rest]; [done|].
  change (json_str (hi :: lo :: rest)) with
    (if is_high_surrogate hi && is_low_surrogate lo
     then (65536 + (hi - 55296) * 1024 + (lo - 56320)) :: json_str rest
     else hi :: json_str (lo :: rest)).
  by rewrite Hhi andb_false_l IH.
Qed.

Lemma json_value_ok (v : pyval) : json_ok v = true → json_value v = Ok v.
Proof.
  destruct v as [|z|s|b]; simpl; [done| | |done].
  - intros Hz. by rewrite /json_int Hz.
  - intros Hs. by rewrite json_str_scalar.
Qed.

Lemma json_items_wrap {V W : Type} (fv : V → result W) (g : W → V)
    (items : list (pystr * W)) : ∀ acc,
  Forall (fun kv => scalar_text kv.1 = true ∧ fv (g kv.2) = Ok kv.2) items →
  NoDup (keys (acc ++ items)) →
  json_items json_key fv (wrap_keys g items) acc = Ok (acc ++ items).
Proof.
  induction items as [|[k w] items IH]; intros acc Hall Hnd.
  - by rewrite app_nil_r.
  - apply Forall_cons in Hall as [[Hk' Hw] Hall]. simpl in Hk', Hw.
    assert (Hk : k ∉ keys acc).
    { rewrite /keys fmap_app in Hnd. apply NoDup_app in Hnd as (_ & Hd & _).
      intros Hin. apply (Hd k Hin). left. }
    rewrite /= json_str_scalar // Hw /= dict_set_notin // IH //; [by rewrite -assoc|].
    by rewrite -assoc.
Qed.

Lemma json_descriptor d :
  good_descriptor d → json_object (fun k => Ok (json_str k)) json_value d = Ok d.
Proof.
  intros (dtype & nullable & char_len & -> & H1 & H2 & H3).
  rewrite /json_object /column_descriptor /=.
  by rewrite !json_value_ok.
Qed.

Lemma json_columns (cols : columns) :
  ok_columns cols →
  json_object json_key (json_object (fun k => Ok (json_str k)) json_value)
    (wrap_keys id cols) = Ok cols.
Proof.
  intros [Hnd Hall]. rewrite /json_object json_items_wrap //.
  eapply Forall_impl; [exact Hall|]. intros [c d] [Hc Hd].
  split; [done|]. by apply json_descriptor.
Qed.

Lemma json_tables (tbls : tables) :
  ok_tables tbls →
  json_object json_key
    (json_object json_key (json_object (fun k => Ok (json_str k)) json_value))
    (wrap_keys (wrap_keys id) tbls) = Ok tbls.
Proof.
  intros [Hnd Hall]. rewrite /json_object json_items_wrap //.
  eapply Forall_impl; [exact Hall|]. intros [t cols] (Ht & _ & ? & ?).
  split; [done|]. by apply json_columns.
Qed.

(** A tree with text keys, distinct at every level, and leaves that JSON
    can write comes back from [json.loads(json.dumps(...))] as it is. *)
Lemma json_roundtrip_wrap (tree : schema_tree) :
  good tree → json_roundtrip (wrap tree) = Ok tree.
Proof.
  intros [Hnd Hall]. rewrite /json_roundtrip /wrap /json_object json_items_wrap //.
  eapply Forall_impl; [exact Hall|]. intros [s tbls] (Hs & _ & ? & ?).
  split; [done|]. by apply json_tables.
Qed.

(** [parse_tables] on well-formed rows. *)
Lemma parse_tables_wf (rows : list (list pyval)) :
  Forall (fun row => wf_row row = true) rows →
  parse_tables rows = Ok (Some (assemble (entry_of <$> rows) [])) ∧
  good (assemble (entry_of <$> rows) []).
Proof.
  intros Hwf.
  assert (Hgood : good (assemble (entry_of <$> rows) [])).
  { apply good_assemble; [apply good_nil|]. apply Forall_fmap.
    eapply Forall_impl; [exact Hwf|]. intros row Hrow. by apply good_entry_of. }
  split; [|done].
  rewrite /parse_tables /parse_tables_try.
  change (@nil (pyval * tables_dd)) with (wrap []).
  by rewrite fill_wf //= json_roundtrip_wrap.
Qed.

Lemma good_populated (tree : schema_tree) : good tree → populated tree.
Proof.
  intros [_ Hall] s tbls Hs. rewrite Forall_forall in Hall.
  destruct (Hall _ Hs) as (_ & Hne & _ & Htbls). split; [done|].
  intros t cols Ht. rewrite Forall_forall in Htbls.
  destruct (Htbls _ Ht) as (_ & Hcne & _ & Hcols). split; [done|].
  intros c d Hc. rewrite Forall_forall in Hcols.
  destruct (Hcols _ Hc) as (_ & dtype & nullable & char_len & Hd & _).
  simpl in Hd. by exists dtype, nullable, char_len.
Qed.

Lemma fmap_bind_pointwise {A B C : Type} (f : B → C) (g : A → list B) (h : A → list C)
    (l : list A) :
  Forall (fun x => f <$> g x = h x) l → f <$> (l ≫= g) = l ≫= h.
Proof.
  induction 1 as [|x l Hx _ IH]; [done|]. by rewrite !bind_cons fmap_app Hx IH.
Qed.

Lemma field_column_descriptor dtype nullable char_len :
  let d := column_descriptor dtype nullable char_len in
  column_descriptor (field d (str "data_type")) (field d (str "is_nullable"))
    (field d (str "character_maximum_length")) = d.
Proof. done. Qed.

(** The rows of a flattened tree are well formed and make the assignments
    that rebuild the tree. *)
Lemma flatten_good (tree : schema_tree) :
  good tree →
  Forall (fun row => wf_row row = true) (flatten tree) ∧
  entry_of <$> flatten tree = tree_entries tree.
Proof.
  intros [_ Hall]. split.
  - apply Forall_bind. eapply Forall_impl; [exact Hall|].
    intros [s tbls] (Hs & _ & _ & Htbls). apply Forall_bind.
    eapply Forall_impl; [exact Htbls|].
    intros [t cols] (Ht & _ & _ & Hcols). apply Forall_bind.
    eapply Forall_impl; [exact Hcols|].
    intros [c d] (Hc & dtype & nullable & char_len & Hd & H1 & H2 & H3).
    simpl in Hs, Ht, Hc, Hd. subst d. constructor; [|constructor].
    rewrite /wf_row /field /=. by rewrite Hs Ht Hc H1 H2 H3.
  - apply fmap_bind_pointwise. eapply Forall_impl; [exact Hall|].
    intros [s tbls] (_ & _ & _ & Htbls). apply fmap_bind_pointwise.
    eapply Forall_impl; [exact Htbls|].
    intros [t cols] (_ & _ & _ & Hcols). apply fmap_bind_pointwise.
    eapply Forall_impl; [exact Hcols|].
    intros [c d] (_ & dtype & nullable & char_len & Hd & _). simpl in Hd. by subst d.
Qed.

Lemma good_assemble_tree (tree : schema_tree) :
  good tree → assemble (tree_entries tree) [] = tree.
Proof.
  intros [Hnd Hall]. rewrite assemble_tree //.
  eapply Forall_impl; [exact Hall|]. intros [s tbls] (_ & ? & ? & Htbls).
  split_and!; [done..|]. eapply Forall_impl; [exact Htbls|].
  by intros [t cols] (_ & ? & ? & _).
Qed.

(** ** The schema normalizer *)

(** C6.  On well-formed rows [parse_tables] returns a tree in which no
    schema and no table maps to an empty mapping, and every leaf is a
    column descriptor with its three attributes. *)
Theorem parse_tables_populated (rows : list (list pyval)) :
  Forall (fun row => wf_row row = true) rows →
  ∃ tree, parse_tables rows = Ok (Some tree) ∧ populated tree.
Proof.
  intros [Hparse Hgood]%parse_tables_wf.
  eexists. split; [exact Hparse|]. by apply good_populated.
Qed.

Lemma parse_tables_populated_witness :
  ∃ tree, parse_tables users_rows = Ok (Some tree) ∧ populated tree.
Proof. apply parse_tables_populated. by repeat constructor. Defined.

(** C7.  Flattening the tree that [parse_tables] returns on well-formed
    rows and parsing the flat rows again gives the same tree. *)
Theorem parse_tables_flatten_idempotent (rows : list (list pyval)) :
  Forall (fun row => wf_row row = true) rows →
  ∃ tree, parse_tables rows = Ok (Some tree) ∧
          parse_tables (flatten tree) = Ok (Some tree).
Proof.
  intros [Hparse Hgood]%parse_tables_wf.
  eexists. split; [exact Hparse|].
  destruct (flatten_good _ Hgood) as [Hwf Hentries].
  destruct (parse_tables_wf _ Hwf) as [-> _].
  by rewrite Hentries good_assemble_tree.
Qed.

Lemma parse_tables_flatten_idempotent_witness :
  ∃ tree, parse_tables duplicate_rows = Ok (Some tree) ∧
          parse_tables (flatten tree) = Ok (Some tree).
Proof. apply parse_tables_flatten_idempotent. by repeat constructor. Defined.

(** C8.  Rows that repeat a (schema, table, column) key raise no error,
    and the tree holds under the key the descriptor of the last row that
    has it. *)
Theorem parse_tables_last_wins (pre post : list (list pyval))
    (s t c : pystr) (dtype nullable char_len : pyval) :
  Forall (fun row => wf_row row = true)
    (pre ++ [PStr s; PStr t; PStr c; dtype; nullable; char_len] :: post) →
  Forall (fun row => take 3 row ≠ [PStr s; PStr t; PStr c]) post →
  ∃ tree,
    parse_tables (pre ++ [PStr s; PStr t; PStr c; dtype; nullable; char_len] :: post)
      = Ok (Some tree) ∧
    lookup3 s t c tree =
      Some [(str "data_type", dtype); (str "is_nullable", nullable);
            (str "character_maximum_length", char_len)].
Proof.
  intros Hwf Hpost.
  destruct (parse_tables_wf _ Hwf) as [Hparse _].
  eexists. split; [exact Hparse|].
  rewrite fmap_app fmap_cons /=. apply lookup3_assemble_last.
  apply Forall_fmap. apply Forall_app in Hwf as [_ [_ Hwf]%Forall_cons].
  assert (Hboth : Forall (fun r => wf_row r = true ∧
                                  take 3 r ≠ [PStr s; PStr t; PStr c]) post).
  { by apply Forall_and. }
  eapply Forall_impl; [exact Hboth|].
  intros r [Hr Hne]. simpl in *.
  destruct r as [|[| |s'|] [|[| |t'|] [|[| |c'|] [|d' [|n' [|l' [|x r]]]]]]]; try done.
  simpl in *. congruence.
Qed.

Lemma parse_tables_last_wins_witness :
  ∃ tree, parse_tables duplicate_rows = Ok (Some tree) ∧
          lookup3 (str "public") (str "users") (str "id") tree =
            Some [(str "data_type", PStr (str "bigint")); (str "is_nullable", PStr (str "YES"));
                  (str "character_maximum_length", PNone)].
Proof.
  apply (parse_tables_last_wins
           [row6 "public" "users" "id" "integer" "NO" PNone;
            row6 "public" "users" "name" "varchar" "YES" (PInt 255)] []).
  - by repeat constructor.
  - constructor.
Defined.

Lemma unpack6_length (row : list pyval) :
  match unpack6 row with
  | Ok _ => length row = 6%nat
  | Raise e => e = ValueError_unpack (length row) ∧ length row ≠ 6%nat
  end.
Proof.
  destruct row as [|a [|b [|c [|d [|e [|f [|g row]]]]]]]; simpl; by auto.
Qed.

(** A row of another length than six stops the loop with a [ValueError];
    what the earlier rows have stored stays in [db_structure]. *)
Lemma fill_malformed (rows : list (list pyval)) : ∀ db,
  (∃ row, row ∈ rows ∧ length row ≠ 6%nat) →
  ∃ n partial, n ≠ 6%nat ∧ fill rows db = (Raise (ValueError_unpack n), partial).
Proof.
  induction rows as [|row rows IH]; intros db (bad & Hin & Hlen).
  - by apply elem_of_nil in Hin.
  - pose proof (unpack6_length row) as Hrow. simpl.
    destruct (unpack6 row) as [[[[[[a b] c] d] e] f]|e].
    + apply IH. exists bad. split; [|done].
      apply elem_of_cons in Hin as [->|Hin]; done.
    + destruct Hrow as [-> Hne]. by exists (length row), db.
Qed.

Lemma parse_tables_try_malformed (rows : list (list pyval)) :
  (∃ row, row ∈ rows ∧ length row ≠ 6%nat) →
  ∃ n, parse_tables_try rows = Raise (ValueError_unpack n).
Proof.
  intros Hbad. destruct (fill_malformed rows [] Hbad) as (n & partial & _ & Hfill).
  exists n. by rewrite /parse_tables_try Hfill.
Qed.

Lemma parse_tables_caught (rows : list (list pyval)) e :
  parse_tables_try rows = Raise e → parse_tables rows = Ok None.
Proof. intros He. by rewrite /parse_tables He. Qed.

(** C4, as the code has it.  When some row has another length than six,
    the [ValueError] of the unpacking is caught inside [parse_tables],
    which returns [None]: no error reaches the caller, and the tree built
    from the rows before is not returned. *)
Theorem parse_tables_malformed (rows : list (list pyval)) :
  (∃ row, row ∈ rows ∧ length row ≠ 6%nat) →
  (∃ n, parse_tables_try rows = Raise (ValueError_unpack n)) ∧
  parse_tables rows = Ok None.
Proof.
  intros [n Hn]%parse_tables_try_malformed.
  split; [by exists n|]. by apply (parse_tables_caught rows (ValueError_unpack n)).
Qed.

Lemma parse_tables_malformed_witness :
  (∃ n, parse_tables_try short_rows = Raise (ValueError_unpack n)) ∧
  parse_tables short_rows = Ok None.
Proof.
  apply parse_tables_malformed.
  exists [PStr (str "public"); PStr (str "users")]. split; [|done].
  right. left.
Defined.

(** C4, as the specification has it, fails: on a row of two values no
    error is delivered to the caller. *)
Lemma parse_tables_malformed_no_error :
  ¬ ((∃ row, row ∈ short_rows ∧ length row ≠ 6%nat) →
     ∃ e, parse_tables short_rows = Raise e).
Proof.
  intros H. destruct H as [e He]; [|done].
  exists [PStr (str "public"); PStr (str "users")]. split; [|done].
  right. left.
Qed.

(** C10.  [parse_tables] never raises: whatever the rows, it returns a
    tree or [None]; every exception of its [try] block, of whatever class,
    ends as the same [None], and a row of another length than six is one
    way to get there. *)
Theorem parse_tables_never_raises :
  (∀ rows, parse_tables rows = Ok None ∨ ∃ tree, parse_tables rows = Ok (Some tree)) ∧
  (∀ rows e, parse_tables_try rows = Raise e → parse_tables rows = Ok None) ∧
  (∀ rows, (∃ row, row ∈ rows ∧ length row ≠ 6%nat) → parse_tables rows = Ok None) ∧
  (∃ rows1 rows2 e1 e2,
     parse_tables_try rows1 = Raise e1 ∧ parse_tables_try rows2 = Raise e2 ∧
     exn_class e1 ≠ exn_class e2 ∧ parse_tables rows1 = parse_tables rows2).
Proof.
  split_and!.
  - intros rows. rewrite /parse_tables.
    destruct (parse_tables_try rows) as [tree|e]; simpl; eauto.
  - intros rows e. apply parse_tables_caught.
  - intros rows [n Hn]%parse_tables_try_malformed.
    by apply (parse_tables_caught rows (ValueError_unpack n)).
  - exists short_rows, bytes_rows, (ValueError_unpack 2), TypeError_json_value.
    by split_and!.
Qed.

(** ** The handlers *)

Ltac run_block :=
  rewrite /database_status /get_schema_tables /execute_query /report /response_setitem
    /get_connection /with_connection /cur_execute /try_except_M /emit /lift /ret
    /get_locals /set_locals /BaseModel /mbind /M_bind /bind /=.

(** [**] unpacks a mapping only: for the text of [json.dumps] the call of
    [pydantic.BaseModel] fails with a [TypeError] before it starts; for a
    [dict] it fails in pydantic. *)
Lemma BaseModel_raises (x : pylocal) :
  BaseModel x = match x with
                | LDict _ => Raise PydanticUserError
                | LStr _ | LNone => Raise TypeError_not_a_mapping
                end.
Proof. by destruct x. Qed.

(** Once the guard has let the query through, whatever the [try] block
    does, the [except] block fails to build its model. *)
Lemma execute_query_accepted u j db ctx q st :
  check_query u q = Ok true →
  execute_query u j db ctx q st =
    (Raise PydanticUserError,
     (st.1, st.2 ++ match db_connect db with
                    | Ok _ => [Connect; Execute q; Close]
                    | Raise _ => [Connect]
                    end)).
Proof.
  intros Hq. run_block. rewrite Hq /=.
  destruct (db_connect db) as [[]|e0]; simpl; [|done].
  destruct (db_execute db q) as [[cols rows]|e]; simpl; [|by rewrite -!assoc].
  destruct (j (zip_rows cols rows)) as [text|e]; simpl; by rewrite -!assoc.
Qed.

Lemma database_status_raises db ctx st :
  (database_status db ctx st).1 = Raise PydanticUserError.
Proof.
  run_block. destruct (db_connect db) as [[]|e0]; simpl; [|done].
  destruct (db_execute db _query2) as [[cols2 rows2]|e]; simpl; [|done].
  by destruct (db_execute db _query1) as [[cols1 rows1]|e].
Qed.

Lemma database_status_second_fails db ctx cols rows e st :
  db_connect db = Ok tt → db_execute db _query2 = Ok (cols, rows) →
  db_execute db _query1 = Raise e →
  database_status db ctx st =
    (Raise PydanticUserError,
     ([(str "client_id", OVal (client_id ctx)); (str "request_id", OVal (request_id ctx));
       (str "pg_database_name", fetchone rows)],
      st.2 ++ [Connect; Execute _query2; Execute _query1; Close])).
Proof. intros Hc H2 H1. run_block. by rewrite Hc /= H2 /= H1 /= -!assoc. Qed.

Lemma parse_tables_returns (rows : list (list pyval)) : ∃ t, parse_tables rows = Ok t.
Proof.
  rewrite /parse_tables. destruct (parse_tables_try rows); simpl; by eexists.
Qed.

Lemma get_schema_tables_raises db ctx st :
  (get_schema_tables db ctx st).1 = Raise PydanticUserError.
Proof.
  run_block. destruct (db_connect db) as [[]|e0]; simpl; [|done].
  destruct (db_execute db _query) as [[cols rows]|e]; simpl; [|done].
  by destruct (parse_tables_returns rows) as [[tree|] ->].
Qed.

(** C2.  A query that the guard rejects gets the payload
    [{"message": "This query use non-safe first word", "error": True}],
    and nothing is done to the database: the events are those from
    before. *)
Theorem execute_query_rejected u j db ctx q st :
  check_query u q = Ok false →
  execute_query u j db ctx q st =
    (Ok (Dict [(str "message", OVal (PStr (str "This query use non-safe first word")));
               (str "error", OBool true)]),
     st).
Proof. intros Hq. run_block. by rewrite Hq. Qed.

Lemma execute_query_rejected_witness :
  execute_query ascii_only no_text stub_db ctx0 (str "DELETE FROM users") (tt, []) =
    (Ok (Dict [(str "message", OVal (PStr (str "This query use non-safe first word")));
               (str "error", OBool true)]),
     (tt, [])).
Proof. apply execute_query_rejected. reflexivity. Defined.

(** C3.  [SELECT 1] against a database that answers with the column [x]
    and the row [1]: the rows are zipped to [[{"x": 1}]], but they are not
    returned.  [response] is the text of [json.dumps], which [**] cannot
    unpack; the [except] block that catches this [TypeError] then fails to
    build its own model, and [PydanticUserError] leaves the handler,
    whatever the two tables of the interpreter are. *)
Theorem execute_query_select_1 u j ctx :
  zip_rows [str "x"] [[PInt 1]] = [[(str "x", PInt 1)]] ∧
  (∀ text, BaseModel (LStr text) = Raise TypeError_not_a_mapping) ∧
  (∀ e, BaseModel (LDict (err_response e)) = Raise PydanticUserError) ∧
  execute_query u j stub_db ctx (str "SELECT 1") (tt, []) =
    (Raise PydanticUserError, (tt, [Connect; Execute (str "SELECT 1"); Close])).
Proof.
  split_and!; [done..|]. by rewrite (execute_query_accepted u j stub_db ctx).
Qed.

(** C5.  A database that cannot be reached, and one whose statement fails:
    [err_response] is made, with the fixed message and the exception, but
    the model that should carry it cannot be built, so both handlers end
    in [PydanticUserError] and return nothing. *)
Theorem handlers_failure_raises u j ctx :
  execute_query u j refused_db ctx (str "SELECT 1") (tt, []) =
    (Raise PydanticUserError, (tt, [Connect])) ∧
  (database_status refused_db ctx ([], [])).1 = Raise PydanticUserError ∧
  execute_query u j half_db ctx (str "SELECT 1") (tt, []) =
    (Raise PydanticUserError, (tt, [Connect; Execute (str "SELECT 1"); Close])) ∧
  (database_status half_db ctx ([], [])).1 = Raise PydanticUserError.
Proof.
  split_and!.
  - by rewrite (execute_query_accepted u j refused_db ctx).
  - apply database_status_raises.
  - by rewrite (execute_query_accepted u j half_db ctx).
  - apply database_status_raises.
Qed.

(** C9.  [SELECT current_database();] answered and [SELECT version();]
    failed: [database_status] returns no payload of any shape.  The
    [except] block cannot build its model and [PydanticUserError] leaves
    the handler; [response], with the name of the database in it, is
    dropped. *)
Theorem database_status_statement_error ctx :
  database_status half_db ctx ([], []) =
    (Raise PydanticUserError,
     ([(str "client_id", OVal (client_id ctx)); (str "request_id", OVal (request_id ctx));
       (str "pg_database_name", ORow (Some [PStr (str "postgres")]))],
      [Connect; Execute _query2; Execute _query1; Close])).
Proof.
  by rewrite (database_status_second_fails half_db ctx
                [str "current_database"] [[PStr (str "postgres")]] statement_failed).
Qed.

(** ** The instances of the specification *)

Example check_query_select u : check_query u (str "  select * from t") = Ok true.
Proof. reflexivity. Qed.

Example check_query_drop u : check_query u (str "DROP TABLE t") = Ok false.
Proof. reflexivity. Qed.

Example check_query_empty u : check_query u (str "") = Ok false.
Proof. reflexivity. Qed.

Example check_query_blank u : check_query u (str "   ") = Ok false.
Proof. reflexivity. Qed.

(** White space and upper case are those of Unicode: a no-break space in
    front is trimmed, and a long s (U+017F), whose upper case is [S], spells
    an accepted keyword. *)
Example check_query_no_break_space u : check_query u (160 :: str "select 1") = Ok true.
Proof. reflexivity. Qed.

Example check_query_long_s :
  check_query (fun c => if c =? 383 then [83] else [c]) (383 :: str "elect 1") = Ok true.
Proof. reflexivity. Qed.

Example parse_tables_users :
  parse_tables users_rows =
    Ok (Some
      [(str "public",
        [(str "users",
          [(str "id",
            [(str "data_type", PStr (str "integer")); (str "is_nullable", PStr (str "NO"));
             (str "character_maximum_length", PNone)]);
           (str "name",
            [(str "data_type", PStr (str "varchar")); (str "is_nullable", PStr (str "YES"));
             (str "character_maximum_length", PInt 255)])])])]).
Proof. reflexivity. Qed.

(** Keys that are not text are written as text, and two keys with one
    text leave one entry, the later. *)
Example parse_tables_key_collision :
  parse_tables
    [[PStr (str "1"); PStr (str "t"); PStr (str "a"); PNone; PNone; PNone];
     [PInt 1; PStr (str "t"); PStr (str "b"); PNone; PNone; PNone]] =
  Ok (Some
    [(str "1",
      [(str "t",
        [(str "b",
          [(str "data_type", PNone); (str "is_nullable", PNone);
           (str "character_maximum_length", PNone)])])])]).
Proof. reflexivity. Qed.

(** * Further properties of the code *)

(** ** [check_query] *)

Lemma spaces_app l r : spaces l → spaces r → spaces (l ++ r).
Proof. apply Forall_app_2. Qed.

Lemma strip_surrounded l s r : spaces l → spaces r → strip (l ++ s ++ r) = strip s.
Proof.
  intros Hl Hr. apply trimmed_unique.
  destruct (trimmed_strip s) as (l' & r' & Hs & Hl' & Hr' & Ht).
  exists (l ++ l'), (r' ++ r). split_and!; [|by apply spaces_app..|done].
  rewrite {1}Hs. by rewrite -!assoc.
Qed.

(** X1.  White space around a query does not change the answer of
    [check_query]. *)
Theorem check_query_surrounded u l s r :
  spaces l → spaces r → check_query u (l ++ s ++ r) = check_query u s.
Proof. intros Hl Hr. by rewrite /check_query strip_surrounded. Qed.

Lemma check_query_surrounded_witness :
  check_query ascii_only (str "  " ++ str "select 1" ++ str " ") =
  check_query ascii_only (str "select 1").
Proof. apply check_query_surrounded; by repeat constructor. Defined.

Lemma first_token_lift s t w : trimmed s t → first_token t w → first_token s w.
Proof.
  intros (l & r & -> & Hl & Hr & _) (l' & r' & -> & Hl' & Hne & Hw & Hr').
  exists (l ++ l'), (r' ++ r). split_and!; [by rewrite -!assoc|by apply spaces_app|done..|].
  destruct Hr' as [->|(c & r'' & -> & Hc)].
  - destruct Hr as [|c r Hc Hr]; [by left|right; by exists c, r].
  - right. by exists c, (r'' ++ r).
Qed.

Lemma first_token_not_spaces s w : first_token s w → strip s ≠ [].
Proof.
  intros (l & r & -> & Hl & Hne & Hw & Hr) E.
  destruct (trimmed_strip (l ++ w ++ r)) as (l' & r' & Hs & Hl' & Hr' & _).
  rewrite E /= in Hs.
  assert (Hall : spaces (l ++ w ++ r)) by (rewrite Hs; by apply spaces_app).
  apply Forall_app in Hall as [_ [Hsw _]%Forall_app].
  destruct w as [|c w]; [done|].
  apply Forall_cons in Hsw as [Hc _]. apply Forall_cons in Hw as [Hc' _]. congruence.
Qed.

(** The answer of [check_query] is read off the first token alone. *)
Lemma check_query_of_first_token u s w :
  first_token s w → check_query u s = Ok (bool_decide (upper u w ∈ ALLOWED_KEYWORDS)).
Proof.
  intros Hw. pose proof (first_token_not_spaces _ _ Hw) as Hne.
  destruct (check_query_strip_nonempty u s Hne) as (w' & Hw' & ->).
  pose proof (first_token_lift _ _ _ (trimmed_strip s) Hw') as Hw''.
  by rewrite (first_token_unique _ _ _ Hw Hw'').
Qed.

Lemma not_spaces_strip s : ¬ spaces s → strip s ≠ [].
Proof.
  intros Hs E. apply Hs.
  destruct (trimmed_strip s) as (l & r & Heq & Hl & Hr & _).
  rewrite E /= in Heq. rewrite Heq. by apply spaces_app.
Qed.

(** X2.  Only the first token counts: what follows a query after white
    space, a second statement for one, does not change the answer. *)
Theorem check_query_rest_ignored u s c rest :
  ¬ spaces s → isspace c = true →
  check_query u (s ++ c :: rest) = check_query u s.
Proof.
  intros Hs%not_spaces_strip Hc.
  destruct (check_query_strip_nonempty u s Hs) as (w & Hw & Hq).
  pose proof (first_token_lift _ _ _ (trimmed_strip s) Hw) as (l & r & -> & Hl & Hne & Hnw & Hr).
  rewrite Hq. apply check_query_of_first_token.
  exists l, (r ++ c :: rest). split_and!; [by rewrite -!assoc|done..|].
  right. destruct Hr as [->|(c' & r' & -> & Hc')]; [by exists c, rest|].
  by exists c', (r' ++ c :: rest).
Qed.

Lemma check_query_rest_ignored_witness :
  check_query ascii_only (str "select 1;" ++ 32 :: str "DROP TABLE users") =
  check_query ascii_only (str "select 1;").
Proof.
  apply check_query_rest_ignored; [|reflexivity].
  intros H. by apply Forall_cons in H as [? _].
Defined.

Lemma isspace_true c :
  isspace c = true ↔
    9 ≤ c ≤ 13 ∨ 28 ≤ c ≤ 32 ∨ c = 133 ∨ c = 160 ∨ c = 5760 ∨ 8192 ≤ c ≤ 8202
    ∨ c = 8232 ∨ c = 8233 ∨ c = 8239 ∨ c = 8287 ∨ c = 12288.
Proof.
  rewrite /isspace !orb_true_iff !andb_true_iff !N.leb_le !N.eqb_eq. lia.
Qed.

Lemma isspace_ascii_lower c : isspace (ascii_lower c) = isspace c.
Proof.
  rewrite /ascii_lower.
  destruct ((65 <=? c) && (c <=? 90)) eqn:E; [|done].
  apply andb_true_iff in E as [H1%N.leb_le H2%N.leb_le].
  transitivity false; [|symmetry]; apply not_true_is_false; rewrite isspace_true; lia.
Qed.

Lemma char_upper_ascii_lower u c : char_upper u (ascii_lower c) = char_upper u c.
Proof.
  rewrite /ascii_lower /char_upper.
  destruct ((65 <=? c) && (c <=? 90)) eqn:E; [|done].
  apply andb_true_iff in E as [H1%N.leb_le H2%N.leb_le].
  assert (H3 : ((97 <=? c + 32) && (c + 32 <=? 122)) = true).
  { apply andb_true_iff. split; apply N.leb_le; lia. }
  assert (H4 : ((97 <=? c) && (c <=? 122)) = false).
  { apply andb_false_iff. left. apply N.leb_gt. lia. }
  assert (H5 : (c <? 128) = true) by (apply N.ltb_lt; lia).
  rewrite H3 H4 H5. f_equal. lia.
Qed.

Section relabel.
Variable u : N → pystr.
Variable f : N → N.
Hypothesis f_space : ∀ c, isspace (f c) = isspace c.
Hypothesis f_upper : ∀ c, char_upper u (f c) = char_upper u c.

Lemma lstrip_fmap (s : pystr) : lstrip (f <$> s) = f <$> lstrip s.
Proof. induction s as [|c s IH]; simpl; [done|]. rewrite f_space. by destruct (isspace c). Qed.

Lemma strip_fmap (s : pystr) : strip (f <$> s) = f <$> strip s.
Proof. by rewrite /strip /rstrip lstrip_fmap -fmap_reverse lstrip_fmap fmap_reverse. Qed.

Lemma split_from_fmap (s : pystr) : ∀ word : pystr,
  split_from (f <$> word) (f <$> s) = (fmap f : pystr → pystr) <$> split_from word s.
Proof.
  induction s as [|c s IH]; intros word; simpl.
  - destruct word; simpl; [done|]. by rewrite -fmap_cons fmap_reverse.
  - rewrite f_space. destruct (isspace c).
    + destruct word; simpl; [apply (IH [])|]. by rewrite -fmap_cons fmap_reverse (IH []).
    + apply (IH (c :: word)).
Qed.

Lemma upper_fmap (w : pystr) : upper u (f <$> w) = upper u w.
Proof.
  rewrite /upper list_fmap_bind. apply Forall_bind_ext, Forall_forall.
  intros c _. apply f_upper.
Qed.

Lemma check_query_fmap (s : pystr) : check_query u (f <$> s) = check_query u s.
Proof.
  rewrite /check_query strip_fmap.
  assert (Hnil : bool_decide (f <$> strip s = []) = bool_decide (strip s = [])).
  { by destruct (strip s). }
  rewrite Hnil /split (split_from_fmap _ []).
  destruct (split_from [] (strip s)) as [|w ws]; simpl; [done|].
  by rewrite upper_fmap.
Qed.

End relabel.

(** X3.  [check_query] does not tell ASCII capitals from small letters,
    anywhere in the query. *)
Theorem check_query_ascii_case (u : N → pystr) (s : pystr) :
  check_query u (ascii_lower <$> s) = check_query u s.
Proof.
  apply check_query_fmap; [apply isspace_ascii_lower|apply char_upper_ascii_lower].
Qed.

(** ** [parse_tables] *)

Lemma key_of_entry_of (row : list pyval) (s t c : pystr) :
  wf_row row = true → take 3 row ≠ [PStr s; PStr t; PStr c] → (entry_of row).1 ≠ (s, t, c).
Proof.
  destruct row as [|[| |s'|] [|[| |t'|] [|[| |c'|] [|d' [|n' [|l' [|x r]]]]]]]; try done.
  simpl. congruence.
Qed.

(** X4.  A (schema, table, column) key that no row carries has no entry in
    the tree: the tree holds what the rows put in it and nothing more. *)
Theorem parse_tables_absent_key (rows : list (list pyval)) (s t c : pystr) :
  Forall (fun row => wf_row row = true) rows →
  Forall (fun row => take 3 row ≠ [PStr s; PStr t; PStr c]) rows →
  ∃ tree, parse_tables rows = Ok (Some tree) ∧ lookup3 s t c tree = None.
Proof.
  intros Hwf Hkeys. destruct (parse_tables_wf _ Hwf) as [Hparse _].
  eexists. split; [exact Hparse|].
  rewrite (lookup3_assemble_other (s, t, c)) //.
  apply Forall_fmap.
  assert (Hboth : Forall (fun r => wf_row r = true ∧
                                  take 3 r ≠ [PStr s; PStr t; PStr c]) rows).
  { by apply Forall_and. }
  eapply Forall_impl; [exact Hboth|]. intros r [Hr Hne]. by apply key_of_entry_of.
Qed.

Lemma parse_tables_absent_key_witness :
  ∃ tree, parse_tables users_rows = Ok (Some tree) ∧
          lookup3 (str "public") (str "users") (str "email") tree = None.
Proof. apply parse_tables_absent_key; by repeat constructor. Defined.

Lemma keys_setitem3 {K : Type} `{EqDecision K} (s t c : K) (d : descriptor)
    (db : list (K * list (K * list (K * descriptor)))) :
  keys (setitem3 s t c d db) = if decide (s ∈ keys db) then keys db else keys db ++ [s].
Proof. by rewrite setitem3_unfold /= keys_dict_set. Qed.

Lemma keys_assemble (es : list (entry pystr)) : ∀ tree : schema_tree,
  keys (assemble es tree) =
    foldl (fun seen x => if decide (x ∈ seen) then seen else seen ++ [x])
      (keys tree) ((fun e : entry pystr => e.1.1.1) <$> es).
Proof.
  induction es as [|[[[s t] c] d] es IH]; intros tree; [done|].
  by rewrite /= IH keys_setitem3.
Qed.

Lemma schema_of_entry_of (row : list pyval) :
  wf_row row = true → (entry_of row).1.1.1 = schema_of row.
Proof.
  by destruct row as [|[| |s'|] [|[| |t'|] [|[| |c'|] [|d' [|n' [|l' [|x r]]]]]]].
Qed.

(** X5.  The schemas of the tree come in the order in which the rows first
    name them, so rows sorted by schema give a tree sorted by schema. *)
Theorem parse_tables_schema_order (rows : list (list pyval)) :
  Forall (fun row => wf_row row = true) rows →
  ∃ tree, parse_tables rows = Ok (Some tree) ∧
          keys tree = first_seen (schema_of <$> rows).
Proof.
  intros Hwf. destruct (parse_tables_wf _ Hwf) as [Hparse _].
  eexists. split; [exact Hparse|].
  rewrite keys_assemble /first_seen -list_fmap_compose. f_equal.
  apply Forall_fmap_ext. eapply Forall_impl; [exact Hwf|].
  intros row Hrow. by apply schema_of_entry_of.
Qed.

Lemma parse_tables_schema_order_witness :
  ∃ tree, parse_tables duplicate_rows = Ok (Some tree) ∧
          keys tree = first_seen (schema_of <$> duplicate_rows).
Proof. apply parse_tables_schema_order. by repeat constructor. Defined.

Lemma unpack6_six (row : list pyval) :
  length row = 6%nat →
  ∃ a b c d e f, row = [a; b; c; d; e; f] ∧ unpack6 row = Ok (a, b, c, d, e, f).
Proof.
  destruct row as [|a [|b [|c [|d [|e [|f [|g row]]]]]]]; try done.
  intros _. by exists a, b, c, d, e, f.
Qed.

Lemma json_items_writes {K V W : Type} (fk : K → result pystr) (fv : V → result W)
    (items : list (K * V)) : ∀ acc,
  Forall (fun kv => (∃ k', fk kv.1 = Ok k') ∧ ∃ w, fv kv.2 = Ok w) items →
  ∃ out, json_items fk fv items acc = Ok out.
Proof.
  induction items as [|[k v] items IH]; intros acc Hall; [by eexists|].
  apply Forall_cons in Hall as [[[k' Hk] [w Hw]] Hall]. simpl in Hk, Hw.
  rewrite /= Hk /= Hw /=. by apply IH.
Qed.

Lemma json_key_writes (k : pyval) : json_writable k = true → ∃ k', json_key k = Ok k'.
Proof.
  destruct k as [|z|s|b]; simpl; [by eauto| |by eauto|done].
  intros Hz. rewrite /json_int Hz. by eauto.
Qed.

Lemma json_value_writes (v : pyval) : json_writable v = true → ∃ w, json_value v = Ok w.
Proof.
  destruct v as [|z|s|b]; simpl; [by eauto| |by eauto|done].
  intros Hz. rewrite /json_int Hz. by eauto.
Qed.

Lemma json_roundtrip_writable (db : schemas_dd) :
  writable db → ∃ tree, json_roundtrip db = Ok tree.
Proof.
  intros Hdb. apply json_items_writes.
  eapply Forall_impl; [exact Hdb|]. intros [s tbls] [Hs Htbls].
  split; [by apply json_key_writes|]. apply json_items_writes.
  eapply Forall_impl; [exact Htbls|]. intros [t cols] [Ht Hcols].
  split; [by apply json_key_writes|]. apply json_items_writes.
  eapply Forall_impl; [exact Hcols|]. intros [c d] [Hc Hd].
  split; [by apply json_key_writes|]. apply json_items_writes.
  eapply Forall_impl; [exact Hd|]. intros [k v] Hv.
  split; [by eexists|by apply json_value_writes].
Qed.

Lemma writable_tables_get (s : pyval) (db : schemas_dd) :
  writable db → writable_tables (default [] (dict_get s db)).
Proof.
  intros Hdb. destruct (dict_get s db) as [tbls|] eqn:E; simpl; [|constructor].
  apply dict_get_Some in E. rewrite /writable Forall_forall in Hdb.
  by destruct (Hdb _ E).
Qed.

Lemma writable_columns_get (t : pyval) (tbls : tables_dd) :
  writable_tables tbls → writable_columns (default [] (dict_get t tbls)).
Proof.
  intros Htbls. destruct (dict_get t tbls) as [cols|] eqn:E; simpl; [|constructor].
  apply dict_get_Some in E. rewrite /writable_tables Forall_forall in Htbls.
  by destruct (Htbls _ E).
Qed.

Lemma writable_setitem3 (s t c dtype nullable char_len : pyval) (db : schemas_dd) :
  writable db → Forall (fun v => json_writable v = true) [s; t; c; dtype; nullable; char_len] →
  writable (setitem3 s t c (column_descriptor dtype nullable char_len) db).
Proof.
  intros Hdb Hrow. rewrite setitem3_unfold /=.
  pose proof (writable_tables_get s db Hdb) as Htbls.
  pose proof (writable_columns_get t _ Htbls) as Hcols.
  repeat (apply Forall_cons in Hrow as [? Hrow]).
  apply Forall_dict_set; [done|]. split; [done|].
  apply Forall_dict_set; [done|]. split; [done|].
  apply Forall_dict_set; [done|]. split; [done|].
  by repeat constructor.
Qed.

Lemma fill_writable (rows : list (list pyval)) : ∀ db,
  Forall (fun row => length row = 6%nat ∧ Forall (fun v => json_writable v = true) row) rows →
  writable db →
  ∃ db', fill rows db = (Ok tt, db') ∧ writable db'.
Proof.
  induction rows as [|row rows IH]; intros db Hrows Hdb; [by eexists|].
  apply Forall_cons in Hrows as [[Hlen Hrow] Hrows].
  destruct (unpack6_six row Hlen) as (a & b & c & d & e & f & -> & Hun).
  rewrite /= . apply IH; [done|]. by apply writable_setitem3.
Qed.

(** X6.  Rows of six values, each of them [None], an [int] of no more
    digits than the interpreter turns into text, or text, always give a
    tree, also when a name is [None] or a number: such a key is kept as
    its JSON text. *)
Theorem parse_tables_no_bytes (rows : list (list pyval)) :
  Forall (fun row => length row = 6%nat ∧ Forall (fun v => json_writable v = true) row) rows →
  ∃ tree, parse_tables rows = Ok (Some tree).
Proof.
  intros Hrows.
  destruct (fill_writable rows [] Hrows) as (db & Hfill & Hdb); [constructor|].
  destruct (json_roundtrip_writable db Hdb) as [tree Htree].
  exists tree. by rewrite /parse_tables /parse_tables_try Hfill /= Htree.
Qed.

Lemma parse_tables_no_bytes_witness :
  ∃ tree, parse_tables [[PNone; PInt 7; PStr (str "c"); PNone; PNone; PInt 1]] = Ok (Some tree).
Proof. apply parse_tables_no_bytes. by repeat constructor. Defined.

(** ** The handlers *)

(** X7.  No handler ever returns a model: [database_status] and
    [get_schema_tables] end in [PydanticUserError] whatever the database
    does, and so does [execute_query] for every query that the guard lets
    through. *)
Theorem handlers_always_raise u j db ctx q st st' :
  check_query u q = Ok true →
  (execute_query u j db ctx q st).1 = Raise PydanticUserError ∧
  (database_status db ctx st').1 = Raise PydanticUserError ∧
  (get_schema_tables db ctx st).1 = Raise PydanticUserError.
Proof.
  intros Hq. split_and!.
  - by rewrite execute_query_accepted.
  - apply database_status_raises.
  - apply get_schema_tables_raises.
Qed.

Lemma handlers_always_raise_witness :
  (execute_query ascii_only no_text stub_db ctx0 (str "SELECT 1") (tt, [])).1
    = Raise PydanticUserError ∧
  (database_status stub_db ctx0 ([], [])).1 = Raise PydanticUserError ∧
  (get_schema_tables stub_db ctx0 (tt, [])).1 = Raise PydanticUserError.
Proof. apply handlers_always_raise. reflexivity. Defined.

(** X8.  [execute_query] never hands out rows: it returns the rejection
    of the guard, or it ends in [PydanticUserError]. *)
Theorem execute_query_never_rows u j db ctx q st :
  (execute_query u j db ctx q st).1 =
    match check_query u q with
    | Ok true => Raise PydanticUserError
    | _ => Ok (Dict guard_rejected)
    end.
Proof.
  destruct (check_query_returns u q) as [Hq|Hq]; rewrite Hq.
  - by rewrite execute_query_accepted.
  - run_block. by rewrite Hq.
Qed.

(** X9.  What [execute_query] does to the database: nothing for a rejected
    query; one attempt to connect when that fails; else it connects, runs
    the query and no other statement, and closes the connection, whether
    the query fails or not. *)
Theorem execute_query_events u j db ctx q st :
  (execute_query u j db ctx q st).2.2 =
    st.2 ++
    match check_query u q, db_connect db with
    | Ok true, Ok _ => [Connect; Execute q; Close]
    | Ok true, Raise _ => [Connect]
    | _, _ => []
    end.
Proof.
  destruct (check_query_returns u q) as [Hq|Hq].
  - rewrite execute_query_accepted // Hq /=. by destruct (db_connect db).
  - run_block. by rewrite Hq /= app_nil_r.
Qed.

(** X10.  What [database_status] does to the database: it asks for the
    name of the database first and for the version only when that went
    through, and it closes the connection whenever it had one. *)
Theorem database_status_events db ctx st :
  (database_status db ctx st).2.2 =
    st.2 ++
    match db_connect db, db_execute db _query2 with
    | Raise _, _ => [Connect]
    | Ok _, Raise _ => [Connect; Execute _query2; Close]
    | Ok _, Ok _ => [Connect; Execute _query2; Execute _query1; Close]
    end.
Proof.
  run_block. destruct (db_connect db) as [[]|e0]; simpl; [|done].
  destruct (db_execute db _query2) as [[cols2 rows2]|e]; simpl; [|by rewrite -!assoc].
  destruct (db_execute db _query1) as [[cols1 rows1]|e]; simpl; by rewrite -!assoc.
Qed.

(** ** The rows of [execute_query] *)

Lemma dict_of_distinct {K V : Type} `{EqDecision K} (pairs : list (K * V)) :
  NoDup (keys pairs) → dict_of pairs = pairs.
Proof.
  rewrite /dict_of. change pairs with ([] ++ pairs) at 1 3.
  generalize (@nil (K * V)). induction pairs as [|[k v] pairs IH]; intros acc Hnd.
  - by rewrite app_nil_r.
  - assert (Hk : k ∉ keys acc).
    { rewrite /keys fmap_app in Hnd. apply NoDup_app in Hnd as (_ & Hd & _).
      intros Hin. apply (Hd k Hin). left. }
    rewrite /= dict_set_notin // (assoc_L _ acc [(k, v)] pairs). apply IH.
    by rewrite -assoc.
Qed.

Lemma keys_zip_distinct {K V : Type} (ks : list K) : ∀ vs : list V,
  NoDup ks → NoDup (keys (zip ks vs)).
Proof.
  induction ks as [|k ks IH]; intros vs Hnd; [constructor|].
  destruct vs as [|v vs]; [constructor|].
  apply NoDup_cons in Hnd as [Hk Hnd]. simpl. apply NoDup_cons. split; [|by apply IH].
  intros Hin. apply Hk. apply list_elem_of_fmap in Hin as ([k' v'] & -> & Hin).
  by apply elem_of_zip_l in Hin.
Qed.

(** X15.  With column names that are all different, each row becomes the
    list of its (column, value) pairs in the order of the columns, cut at
    the shorter of the two; nothing is merged or reordered. *)
Theorem zip_rows_distinct (columns : list pystr) (rows : list (list pyval)) :
  NoDup columns → zip_rows columns rows = zip columns <$> rows.
Proof.
  intros Hnd. rewrite /zip_rows. apply list_fmap_ext. intros i row _.
  apply dict_of_distinct. by apply keys_zip_distinct.
Qed.

Lemma zip_rows_distinct_witness :
  zip_rows [str "id"; str "name"] [[PInt 1; PStr (str "a")]; [PInt 2; PStr (str "b")]] =
  zip [str "id"; str "name"] <$> [[PInt 1; PStr (str "a")]; [PInt 2; PStr (str "b")]].
Proof.
  apply zip_rows_distinct. apply NoDup_cons. split; [|apply NoDup_singleton].
  intros Hin%list_elem_of_singleton. discriminate Hin.
Defined.

(** ** The connection string *)

(** X16.  The password of the settings is not in the connection string:
    two settings that differ in a non-empty password only give the same
    string, with ten asterisks where the password should be. *)
Theorem conninfo_masks_password (name user host pw1 pw2 : pystr) (port : Z) :
  pw1 ≠ [] → pw2 ≠ [] →
  conninfo {| DB_NAME := name; DB_USER := user; DB_PASSWORD := pw1;
              DB_HOST := host; DB_PORT := port |} =
  conninfo {| DB_NAME := name; DB_USER := user; DB_PASSWORD := pw2;
              DB_HOST := host; DB_PORT := port |}.
Proof. intros H1 H2. rewrite /conninfo /=. by destruct pw1, pw2. Qed.

Lemma conninfo_masks_password_witness :
  conninfo {| DB_NAME := str "postgres"; DB_USER := str "postgres";
              DB_PASSWORD := str "postgres"; DB_HOST := str "localhost"; DB_PORT := 5432 |} =
  conninfo {| DB_NAME := str "postgres"; DB_USER := str "postgres";
              DB_PASSWORD := str "s3cret"; DB_HOST := str "localhost"; DB_PORT := 5432 |}.
Proof. by apply conninfo_masks_password. Defined.

(** ** The logger *)

(** X17.  [get_logger] can be called again and again, as the modules do
    when they are loaded: after the first call the logger is at [DEBUG]
    with the handler in it, and further calls change nothing, so no line
    is written twice. *)
Theorem get_logger_idempotent (logger : logger_state) :
  level (get_logger logger) = DEBUG ∧
  handler ∈ handlers (get_logger logger) ∧
  get_logger (get_logger logger) = get_logger logger.
Proof.
  assert (Hin : handler ∈ handlers (get_logger logger)).
  { rewrite /get_logger /addHandler /setLevel /=. case_decide; simpl; [done|].
    apply elem_of_app. right. left. }
  assert (Hlevel : level (get_logger logger) = DEBUG).
  { rewrite /get_logger /addHandler /setLevel /=. by case_decide. }
  split_and!; [done..|].
  rewrite {1}/get_logger /addHandler /setLevel /= decide_True //.
  destruct (get_logger logger) as [lv hs]. simpl in *. by subst.
Qed.

(** ** What the guard turns away *)

Lemma head_first_token_strip s w c :
  first_token (strip s) w → head (lstrip s) = Some c → head w = Some c.
Proof.
  intros (l' & r' & Ht & Hl' & Hne & Hw & _) Hc.
  destruct (trimmed_strip s) as (l & r & Hs & Hl & Hr & Hends).
  rewrite Hs lstrip_spaces_app // in Hc.
  destruct Hends as [E|(a & b & Ha & _ & Hsa & _)].
  { rewrite E in Ht. by destruct l', w. }
  destruct (strip s) as [|a' t] eqn:E; simplify_eq/=.
  rewrite Hsa /= in Hc. simplify_eq.
  destruct l' as [|x l']; simplify_eq/=.
  - by destruct w; simplify_eq/=.
  - apply Forall_cons in Hl' as [Hx _]. congruence.
Qed.

Lemma head_upper u c w :
  c < 128 → head (upper u (c :: w)) = Some (if (97 <=? c) && (c <=? 122) then c - 32 else c).
Proof.
  intros Hc%N.ltb_lt. rewrite /upper /= /char_upper Hc.
  by destruct ((97 <=? c) && (c <=? 122)).
Qed.

(** X18.  A query that starts, after white space, with an ASCII character
    other than S, D or E in either case is rejected: a comment, a
    parenthesis, WITH, INSERT, UPDATE. *)
Theorem check_query_first_character u s c :
  head (lstrip s) = Some c → c < 128 →
  c ∉ [83; 68; 69; 115; 100; 101] →
  check_query u s = Ok false.
Proof.
  intros Hhd Hc Hnot.
  assert (Hne : strip s ≠ []).
  { intros E. destruct (trimmed_strip s) as (l & r & Hs & Hl & Hr & _).
    rewrite E /= in Hs. rewrite Hs lstrip_spaces in Hhd; [done|by apply spaces_app]. }
  destruct (check_query_strip_nonempty u s Hne) as (w & Hw & ->).
  pose proof (head_first_token_strip _ _ _ Hw Hhd) as Hw0.
  destruct w as [|c' w]; [done|]. injection Hw0 as ->.
  f_equal. apply bool_decide_eq_false. intros Hin.
  pose proof (head_upper u c w Hc) as Hup.
  assert (Hcases : (if (97 <=? c) && (c <=? 122) then c - 32 else c) ∈ [83; 68; 69]).
  { rewrite /ALLOWED_KEYWORDS !elem_of_cons in Hin.
    destruct Hin as [E|[E|[E|[E|[E|E%elem_of_nil]]]]]; [..|done];
      rewrite E in Hup; vm_compute in Hup; simplify_eq; rewrite -Hup !elem_of_cons; auto. }
  apply Hnot. rewrite !elem_of_cons elem_of_nil in Hcases. rewrite !elem_of_cons elem_of_nil.
  destruct ((97 <=? c) && (c <=? 122)) eqn:Hlow.
  - apply andb_true_iff in Hlow as [H1%N.leb_le H2%N.leb_le]. lia.
  - lia.
Qed.

Lemma check_query_first_character_witness :
  check_query ascii_only (str "  WITH t AS (SELECT 1) SELECT * FROM t") = Ok false.
Proof.
  apply (check_query_first_character _ _ 87); [reflexivity|reflexivity|].
  rewrite !elem_of_cons. intros [H|[H|[H|[H|[H|[H|H%elem_of_nil]]]]]]; done.
Defined.

(** X19.  What [get_schema_tables] does to the database: one attempt to
    connect when that fails; else it connects, runs its one statement and
    closes the connection, whatever the statement and the parsing of its
    rows give. *)
Theorem get_schema_tables_events db ctx st :
  (get_schema_tables db ctx st).2.2 =
    st.2 ++
    match db_connect db with
    | Ok _ => [Connect; Execute _query; Close]
    | Raise _ => [Connect]
    end.
Proof.
  run_block. destruct (db_connect db) as [[]|e0]; simpl; [|done].
  destruct (db_execute db _query) as [[cols rows]|e]; simpl; [|by rewrite -!assoc].
  destruct (parse_tables_returns rows) as [[tree|] ->]; simpl; by rewrite -!assoc.
Qed.

(** ** The limits of the JSON round trip *)

(** A high and a low surrogate side by side in a name come back as one
    code point, so the tree is keyed by a name that no row has. *)
Example parse_tables_surrogate_pair :
  parse_tables [[PStr [55357; 56832]; PStr (str "t"); PStr (str "c"); PNone; PNone; PNone]] =
  Ok (Some
    [([128512],
      [(str "t",
        [(str "c",
          [(str "data_type", PNone); (str "is_nullable", PNone);
           (str "character_maximum_length", PNone)])])])]).
Proof. reflexivity. Qed.

(** An [int] of 4301 digits cannot be written, and the whole result is
    [None]. *)
Example parse_tables_long_int :
  parse_tables [[PStr (str "s"); PStr (str "t"); PStr (str "c");
                 PNone; PNone; PInt (10 ^ 4300)]] = Ok None.
Proof. vm_compute. reflexivity. Qed.
